(** * discord-insights: the rotating API credential and the handler dispatch

    A shallow embedding of [src/utils/client.ts] (class [NucleusClient]) and
    of the part of [src/commands/summary.ts] the dispatcher needs, with the
    properties of the credential rotator ([authToken], [_isValidHash]), of
    the command dispatcher ([commandHandler]) and of the lifecycle
    subscriptions ([registerEvents], [eventCapture]).

    Strings are byte strings (the UTF-8 encoding Node hashes), numbers that
    the code uses as integers are [Z], the command table is a finite map from
    names, and what the code does to the outside world (logging, replies,
    calls of handlers) is returned as a list of effects. *)

From Stdlib Require Import ZArith List String Ascii Bool Lia DecimalString.
From stdpp Require Import base option list gmap strings.
Import ListNotations.

Local Open Scope Z_scope.
Local Open Scope string_scope.

(** ** SHA-256 (FIPS 180-4), as computed by
    [crypto.createHash("sha256").update(s).digest("hex")] *)

Module Sha256.

Definition w32 (x : Z) : Z := x mod 2 ^ 32.
Definition add32 (x y : Z) : Z := w32 (x + y).
Definition rotr (n x : Z) : Z := Z.lor (Z.shiftr x n) (w32 (Z.shiftl x (32 - n))).
Definition not32 (x : Z) : Z := Z.lxor x 0xffffffff.

Definition Ch (x y z : Z) : Z := Z.lxor (Z.land x y) (Z.land (not32 x) z).
Definition Maj (x y z : Z) : Z :=
  Z.lxor (Z.lxor (Z.land x y) (Z.land x z)) (Z.land y z).
Definition bsig0 (x : Z) : Z := Z.lxor (Z.lxor (rotr 2 x) (rotr 13 x)) (rotr 22 x).
Definition bsig1 (x : Z) : Z := Z.lxor (Z.lxor (rotr 6 x) (rotr 11 x)) (rotr 25 x).
Definition ssig0 (x : Z) : Z := Z.lxor (Z.lxor (rotr 7 x) (rotr 18 x)) (Z.shiftr x 3).
Definition ssig1 (x : Z) : Z := Z.lxor (Z.lxor (rotr 17 x) (rotr 19 x)) (Z.shiftr x 10).

(** The round constants are the first 32 bits of the fractional parts of
    the cube roots of the first 64 primes, the initial hash value those of
    the square roots of the first 8. *)
Definition primes : list Z :=
  [ 2; 3; 5; 7; 11; 13; 17; 19; 23; 29; 31; 37; 41; 43; 47; 53; 59; 61; 67; 71; 73;
    79; 83; 89; 97; 101; 103; 107; 109; 113; 127; 131; 137; 139; 149; 151; 157;
    163; 167; 173; 179; 181; 191; 193; 197; 199; 211; 223; 227; 229; 233; 239;
    241; 251; 257; 263; 269; 271; 277; 281; 283; 293; 307; 311 ].

(** The integer cube root, one bit at a time from bit [bits - 1] down. *)
Fixpoint cube_root (bits : nat) (n r : Z) : Z :=
  match bits with
  | O => r
  | S b =>
      let c := r + 2 ^ Z.of_nat b in
      if (c * c * c <=? n)%Z then cube_root b n c else cube_root b n r
  end.

Definition K : list Z := map (fun p => w32 (cube_root 36 (p * 2 ^ 96) 0)) primes.

(** The eight working words. *)
Record hstate : Set := mkH {
  ha : Z; hb : Z; hc : Z; hd : Z; he : Z; hf : Z; hg : Z; hh : Z }.

Definition frac_sqrt (p : Z) : Z := w32 (Z.sqrt (p * 2 ^ 64)).

Definition H0 : hstate :=
  mkH (frac_sqrt 2) (frac_sqrt 3) (frac_sqrt 5) (frac_sqrt 7)
      (frac_sqrt 11) (frac_sqrt 13) (frac_sqrt 17) (frac_sqrt 19).

(** Message padding: a 1 bit, zeros up to 56 mod 64 bytes, then the bit
    length as a 64-bit big-endian number. *)
Definition be_bytes (n : nat) (x : Z) : list Z :=
  map (fun i => (Z.shiftr x (8 * Z.of_nat i)) mod 256) (rev (seq 0 n)).

Definition pad (msg : list Z) : list Z :=
  let len := Z.of_nat (List.length msg) in
  msg ++ [0x80] ++ repeat 0 (Z.to_nat ((55 - len) mod 64)) ++ be_bytes 8 (8 * len).

Fixpoint be_words (bs : list Z) : list Z :=
  match bs with
  | b0 :: b1 :: b2 :: b3 :: rest =>
      (b0 * 2 ^ 24 + b1 * 2 ^ 16 + b2 * 2 ^ 8 + b3) :: be_words rest
  | _ => []
  end.

Fixpoint blocks (fuel : nat) (ws : list Z) : list (list Z) :=
  match fuel, ws with
  | S fuel', _ :: _ => firstn 16 ws :: blocks fuel' (skipn 16 ws)
  | _, _ => []
  end.

(** The message schedule, built newest word first: with [W t-1] at the head,
    [W t-2], [W t-7], [W t-15] and [W t-16] sit at positions 1, 6, 14, 15. *)
Fixpoint schedule (n : nat) (w : list Z) : list Z :=
  match n with
  | O => rev w
  | S n' =>
      let x := add32 (add32 (ssig1 (nth 1 w 0)) (nth 6 w 0))
                     (add32 (ssig0 (nth 14 w 0)) (nth 15 w 0)) in
      schedule n' (x :: w)
  end.

Definition round (s : hstate) (kw : Z * Z) : hstate :=
  let t1 := add32 (add32 (add32 (hh s) (bsig1 (he s))) (Ch (he s) (hf s) (hg s)))
                  (add32 (fst kw) (snd kw)) in
  let t2 := add32 (bsig0 (ha s)) (Maj (ha s) (hb s) (hc s)) in
  mkH (add32 t1 t2) (ha s) (hb s) (hc s) (add32 (hd s) t1) (he s) (hf s) (hg s).

Definition compress (s : hstate) (block : list Z) : hstate :=
  let w := schedule 48 (rev block) in
  let r := fold_left round (combine K w) s in
  mkH (add32 (ha s) (ha r)) (add32 (hb s) (hb r)) (add32 (hc s) (hc r))
      (add32 (hd s) (hd r)) (add32 (he s) (he r)) (add32 (hf s) (hf r))
      (add32 (hg s) (hg r)) (add32 (hh s) (hh r)).

Definition digest (msg : list Z) : hstate :=
  let ws := be_words (pad msg) in
  fold_left compress (blocks (List.length ws) ws) H0.

(** Lower-case hexadecimal, eight digits a word. *)
Definition hex_digit (x : Z) : ascii :=
  nth (Z.to_nat (x mod 16)) (list_ascii_of_string "0123456789abcdef") "0"%char.

Definition hex_word (x : Z) (k : string) : string :=
  String (hex_digit (Z.shiftr x 28)) (String (hex_digit (Z.shiftr x 24))
  (String (hex_digit (Z.shiftr x 20)) (String (hex_digit (Z.shiftr x 16))
  (String (hex_digit (Z.shiftr x 12)) (String (hex_digit (Z.shiftr x 8))
  (String (hex_digit (Z.shiftr x 4)) (String (hex_digit x) k))))))).

Definition hex_state (s : hstate) : string :=
  hex_word (ha s) (hex_word (hb s) (hex_word (hc s) (hex_word (hd s)
  (hex_word (he s) (hex_word (hf s) (hex_word (hg s) (hex_word (hh s) ""))))))).

Definition bytes_of_string (s : string) : list Z :=
  map (fun c => Z.of_N (N_of_ascii c)) (list_ascii_of_string s).

Definition sha256_hex (s : string) : string := hex_state (digest (bytes_of_string s)).

End Sha256.

(** ** Values of the host language *)

(** What the code makes the outside world see. *)
Inductive Effect : Type :=
| LogError (msg : string)               (* logs.error(msg) *)
| Invoke (name : string)                (* the callback registered as [name] is called *)
| EditReply (content : string)          (* interaction.editReply({ content }) *)
| FollowUp (content : string) (ephemeral : bool)
| UnhandledRejection (error : string).  (* a rejected promise nobody awaits or catches *)

(** [`${n}`] for an integer [n]: decimal digits, a leading [-] when negative. *)
Definition js_string_of_int (z : Z) : string := NilZero.string_of_int (Z.to_int z).

(** The [%] of the host language truncates towards zero: the result has the
    sign of the dividend. *)
Definition js_rem (a b : Z) : Z := Z.rem a b.

(** A string in a condition: only the empty string is falsy. *)
Definition truthy_string (s : string) : bool := negb (String.eqb s "").

(** An optional string in a condition: [undefined] is falsy too. *)
Definition truthy (s : option string) : bool :=
  match s with
  | Some s => truthy_string s
  | None => false
  end.

(** A [Date] as [authToken] observes it: the instant in milliseconds since
    the epoch and the calendar fields of the host's time zone. *)
Record Date : Set := mkDate {
  getTime : Z;
  getDate : Z;      (* day of the month, 1..31 *)
  getHours : Z;     (* 0..23 *)
  getMinutes : Z    (* 0..59 *)
}.

(** The [Date] of an instant on a host whose time zone is UTC (proleptic
    Gregorian calendar, days counted from 0000-03-01). *)
Definition utc_day_of_month (days : Z) : Z :=
  let doe := (days + 719468) mod 146097 in
  let yoe := (doe - doe / 1460 + doe / 36524 - doe / 146096) / 365 in
  let doy := doe - (365 * yoe + yoe / 4 - yoe / 100) in
  let mp := (5 * doy + 2) / 153 in
  doy - (153 * mp + 2) / 5 + 1.

Definition utcDate (ms : Z) : Date :=
  {| getTime := ms;
     getDate := utc_day_of_month (ms / 86400000);
     getHours := (ms / 3600000) mod 24;
     getMinutes := (ms / 60000) mod 60 |}.

(** ** The credential rotator *)

Module Rotator.

(** [authHash: { now: string; prev: string; expires: Date }]; of [expires]
    the code only uses the instant. *)
Record AuthHash : Set := mkAuthHash {
  now : string;
  prev : string;
  expires : Z
}.

(** [authToken] returns [boolean | typeof this.authHash]. *)
Inductive AuthResult : Set :=
| RBool (b : bool)
| RHash (h : AuthHash).

(** The value in a condition: an object is truthy. *)
Definition truthy_result (r : AuthResult) : bool :=
  match r with
  | RBool b => b
  | RHash _ => true
  end.

(** The constructor, run at instant [t0]:
    [this.authHash = { now: "", prev: "", expires: new Date() }]. *)
Definition initial (t0 : Z) : AuthHash := {| now := ""; prev := ""; expires := t0 |}.

Definition _isValidHash (h : AuthHash) (hash : string) : bool :=
  String.eqb hash (now h) || String.eqb hash (prev h).

(** [test ? this._isValidHash(test) : this.authHash] *)
Definition answer (h : AuthHash) (test : option string) : AuthResult :=
  match test with
  | Some t => if truthy_string t then RBool (_isValidHash h t) else RHash h
  | None => RHash h
  end.

Definition toHash (auth : string) (date : Date) : string :=
  auth ++ js_string_of_int (getDate date) ++ js_string_of_int (getHours date)
       ++ js_string_of_int (getMinutes date).

Definition previousMinute (auth : string) (date : Date) : string :=
  auth ++ js_string_of_int (getDate date) ++ js_string_of_int (getHours date)
       ++ js_string_of_int (js_rem (getMinutes date - 1) 60).

Definition missing_secret : string := "No auth token provided in environment".

(** [authToken(test?)]. [env] is [process.env["NUCLEUS_AUTH"]]; [d1] is the
    clock read by the expiry test and [d2] the clock read by the
    recomputation (the second [new Date()], reached only when the cached
    credential has expired and the secret is there). The result comes with
    the stored credential after the call and with what was logged. *)
Definition authToken (h : AuthHash) (env : option string) (d1 d2 : Date)
    (test : option string) : AuthResult * AuthHash * list Effect :=
  if expires h >? getTime d1 then (answer h test, h, [])
  else
    match env with
    | Some auth =>
        if truthy_string auth then
          let h' := {| now := Sha256.sha256_hex (toHash auth d2);
                       prev := Sha256.sha256_hex (previousMinute auth d2);
                       expires := getTime d2 + 60000 |} in
          (answer h' test, h', [])
        else (RBool false, h, [LogError missing_secret])
    | None => (RBool false, h, [LogError missing_secret])
    end.

(** The credentials a client can hold: the one of the constructor, and the
    ones left by calls of [authToken] with any secret, any argument and any
    readings of a clock that does not run backwards. [reachable t h]: [h] is
    held after clock readings that were all at most [t]. *)
Inductive reachable : Z -> AuthHash -> Prop :=
| reach_new (t0 : Z) : reachable t0 (initial t0)
| reach_call (t : Z) (h : AuthHash) env d1 d2 test r h' log :
    reachable t h ->
    t <= getTime d1 -> getTime d1 <= getTime d2 ->
    authToken h env d1 d2 test = (r, h', log) ->
    reachable (getTime d2) h'.

End Rotator.


(** ** Calls and promises *)

(** How a promise settles. *)
Inductive Settled : Set :=
| Fulfilled
| Rejected (error : string).

(** What calling a function does: it throws before returning, returns a
    value that is not a promise, or returns a promise. An [async] function
    always returns a promise: an error raised in its body rejects it. *)
Inductive CallResult : Set :=
| Throws (error : string)
| Returns
| ReturnsPromise (p : Settled).

(** A promise that is dropped: its rejection is handled by nobody. *)
Definition dropped (p : Settled) : list Effect :=
  match p with
  | Fulfilled => []
  | Rejected e => [UnhandledRejection e]
  end.

(** ** The command dispatcher *)

Module Dispatcher.

(** The interaction as [commandHandler] and the callbacks use it. [replied]
    is the flag as the [catch] block reads it; [reply], [editReply] and
    [followUp] say how the promise of that method settles (the three are
    [async] methods of discord.js). [guild] is the id of the guild, if any. *)
Record Interaction : Set := mkInteraction {
  isCommand : bool;
  commandName : string;
  replied : bool;
  guild : option string;
  reply : Settled;
  editReply : Settled;
  followUp : Settled
}.

(** [extendedCommand], of which the dispatcher uses the [callback]. *)
Record extendedCommand : Set := mkCommand {
  callback : Interaction -> CallResult
}.

(** The names every object literal inherits from [Object.prototype]; each of
    them is bound to a function or, for [__proto__], to an object, none of
    which has a [callback] property. *)
Definition object_prototype : list string :=
  [ "constructor"; "__defineGetter__"; "__defineSetter__"; "hasOwnProperty";
    "__lookupGetter__"; "__lookupSetter__"; "isPrototypeOf";
    "propertyIsEnumerable"; "toString"; "valueOf"; "__proto__";
    "toLocaleString" ].

(** [this.commands[name]] on the object literal [{ ping, summary }]. *)
Inductive Property : Set :=
| Own (c : extendedCommand)
| Inherited
| Undefined.

Definition get (commands : gmap string extendedCommand) (name : string) : Property :=
  match commands !! name with
  | Some c => Own c
  | None => if bool_decide (name ∈ object_prototype) then Inherited else Undefined
  end.

Definition failure_message : string := "There was an error while executing this command!".

Definition not_a_function : string :=
  "TypeError: this.commands[commandName].callback is not a function".

(** The [catch] block. Neither notification is awaited. *)
Definition on_catch (error : string) (i : Interaction) : list Effect :=
  LogError ("Error in command callback: " ++ error)
  :: (if replied i then EditReply failure_message :: dropped (editReply i)
      else FollowUp failure_message true :: dropped (followUp i)).

(** [commandHandler(interaction)]: the effects of the call and how the
    promise it returns settles. The callback is called inside the [try]
    and what it returns is not awaited. *)
Definition commandHandler (commands : gmap string extendedCommand) (i : Interaction)
    : list Effect * Settled :=
  if negb (isCommand i) then ([], Fulfilled)
  else
    match get commands (commandName i) with
    | Undefined => ([], Fulfilled)
    | Inherited => (on_catch not_a_function i, Fulfilled)
    | Own c =>
        match callback c i with
        | Throws e => (Invoke (commandName i) :: on_catch e i, Fulfilled)
        | Returns => ([Invoke (commandName i)], Fulfilled)
        | ReturnsPromise p => (Invoke (commandName i) :: dropped p, Fulfilled)
        end
    end.

(** The result of a query awaited on the external store. *)
Inductive Query (A : Type) : Type :=
| Rows (a : A)
| QueryError (error : string).
Arguments Rows {A} a.
Arguments QueryError {A} error.

(** The store as [summary] queries it for a guild: the number of today's
    records, and the [count]s of the most recent records, newest first, up
    to a limit. *)
Record Database : Type := mkDatabase {
  count_today : string -> Query Z;
  select_recent : string -> Z -> Query (list Z)
}.

Definition reading_id_of_null : string :=
  "TypeError: Cannot read properties of null (reading 'id')".

Definition reading_count_of_undefined : string :=
  "TypeError: Cannot read properties of undefined (reading 'count')".

(** The callback of [commands/summary.ts], an [async] function: it awaits the
    two queries, reads [count] of the first and of the last row, and awaits
    [interaction.reply]. *)
Definition summary_callback (db : Database) (i : Interaction) : CallResult :=
  match guild i with
  | None => ReturnsPromise (Rejected reading_id_of_null)
  | Some g =>
      match count_today db g with
      | QueryError e => ReturnsPromise (Rejected e)
      | Rows todayRecords =>
          match select_recent db g (todayRecords + 1) with
          | QueryError e => ReturnsPromise (Rejected e)
          | Rows [] => ReturnsPromise (Rejected reading_count_of_undefined)
          | Rows (_ :: _) => ReturnsPromise (reply i)
          end
      end
  end.

Definition summary (db : Database) : extendedCommand := mkCommand (summary_callback db).

(** [this.commands = { ping, summary }]; [commands/ping.ts] is taken as given. *)
Definition commands (ping : extendedCommand) (db : Database) : gmap string extendedCommand :=
  <["ping" := ping]> (<["summary" := summary db]> ∅).

End Dispatcher.

(** ** Lifecycle events *)

Module Events.

(** [...args: unknown[]] *)
Definition Args : Set := list string.

(** One call of a subscribed function: the effects before it returns, the
    effects once the promises it awaited have settled, and its result. *)
Record Run : Set := mkRun {
  sync : list Effect;
  later : list Effect;
  result : CallResult
}.

(** A subscription of an emitter: [on] or [once], and the function. *)
Record Listener : Set := mkListener {
  once_only : bool;
  run : Args -> Run
}.

(** The emitter the client inherits from discord.js, Node's [EventEmitter],
    after its documented behaviour: for every event name, its listeners in
    the order of their subscription. *)
Definition listeners (em : gmap string (list Listener)) (ev : string) : list Listener :=
  default [] (em !! ev).

Definition on (em : gmap string (list Listener)) (ev : string) (f : Args -> Run)
    : gmap string (list Listener) :=
  <[ev := (listeners em ev ++ [mkListener false f])%list]> em.

Definition once (em : gmap string (list Listener)) (ev : string) (f : Args -> Run)
    : gmap string (list Listener) :=
  <[ev := (listeners em ev ++ [mkListener true f])%list]> em.

(** The outcome of one [emit]: the effects in the order they happen during
    the call, the effects that follow when promises settle, and the error
    [emit] throws, if a listener threw. *)
Record Emission : Set := mkEmission {
  during : list Effect;
  after : list Effect;
  thrown : option string
}.

(** [emit] calls the listeners one after the other. A [once] listener is
    unsubscribed before it is called; the promise a listener returns is
    dropped; an error a listener throws leaves [emit] at once, the listeners
    after it are not called and stay subscribed. *)
Fixpoint fire (ls : list Listener) (args : Args) : list Listener * Emission :=
  match ls with
  | [] => ([], mkEmission [] [] None)
  | l :: rest =>
      let keep := if once_only l then [] else [l] in
      let r := run l args in
      match result r with
      | Throws e => ((keep ++ rest)%list, mkEmission (sync r) (later r) (Some e))
      | Returns =>
          let '(kept, out) := fire rest args in
          ((keep ++ kept)%list,
           mkEmission (sync r ++ during out)%list (later r ++ after out)%list (thrown out))
      | ReturnsPromise p =>
          let '(kept, out) := fire rest args in
          ((keep ++ kept)%list,
           mkEmission (sync r ++ during out)%list (later r ++ dropped p ++ after out)%list
                      (thrown out))
      end
  end.

Definition emit (em : gmap string (list Listener)) (ev : string) (args : Args)
    : gmap string (list Listener) * Emission :=
  match em !! ev with
  | None => (em, mkEmission [] [] None)
  | Some ls => let '(kept, out) := fire ls args in (<[ev := kept]> em, out)
  end.

(** The default export of an event file:
    [{ event: Discord.Event, once: boolean, callback: Function }]. *)
Record EventModule : Set := mkEvent {
  event : string;
  once_flag : bool;
  callback : Args -> CallResult
}.

Definition event_error (name error : string) : string :=
  "Error in event " ++ name ++ " callback: " ++ error.

(** [eventCapture(name, callback)]: an [async] function that calls the
    callback inside a [try], awaits what it returns, and logs what it
    catches. An error thrown by the callback is logged before the wrapper
    returns, a rejection when the promise has settled. *)
Definition eventCapture (name : string) (callback : Args -> CallResult) (args : Args) : Run :=
  match callback args with
  | Throws e => mkRun [Invoke name; LogError (event_error name e)] [] (ReturnsPromise Fulfilled)
  | Returns => mkRun [Invoke name] [] (ReturnsPromise Fulfilled)
  | ReturnsPromise Fulfilled => mkRun [Invoke name] [] (ReturnsPromise Fulfilled)
  | ReturnsPromise (Rejected e) =>
      mkRun [Invoke name] [LogError (event_error name e)] (ReturnsPromise Fulfilled)
  end.

(** [file.endsWith(suffix)] *)
Definition endsWith (suffix file : string) : bool :=
  let n := String.length file in
  let m := String.length suffix in
  (m <=? n)%nat && String.eqb (substring (n - m) m file) suffix.

(** The body of the [forEach] of [registerEvents] for one file. *)
Definition register (em : gmap string (list Listener)) (f : string * EventModule)
    : gmap string (list Listener) :=
  if once_flag (snd f) then once em (event (snd f)) (eventCapture (fst f) (callback (snd f)))
  else on em (event (snd f)) (eventCapture (fst f) (callback (snd f))).

(** [registerEvents]: the files of the events directory whose name ends in
    [.js], each with the module its import yields, subscribed in the order
    in which the imports complete, which is the order of [dir]. *)
Definition eventFiles (dir : list (string * EventModule)) : list (string * EventModule) :=
  List.filter (fun f => endsWith ".js" (fst f)) dir.

Definition registerEvents (dir : list (string * EventModule)) (em : gmap string (list Listener))
    : gmap string (list Listener) :=
  fold_left register (eventFiles dir) em.

(** A sequence of emissions, each with its outcome. *)
Fixpoint emitAll (em : gmap string (list Listener)) (es : list (string * Args))
    : gmap string (list Listener) * list Emission :=
  match es with
  | [] => (em, [])
  | (ev, args) :: es' =>
      let '(em1, out) := emit em ev args in
      let '(em2, outs) := emitAll em1 es' in
      (em2, out :: outs)
  end.

(** How many times the callback registered as [name] was called. *)
Definition is_invoke (name : string) (e : Effect) : bool :=
  match e with
  | Invoke n => String.eqb n name
  | _ => false
  end.

Definition runs (name : string) (outs : list Emission) : nat :=
  List.length (List.filter (is_invoke name) (concat (map during outs))).

(** How many emissions of the event [ev] a sequence has. *)
Definition emissions_of (ev : string) (es : list (string * Args)) : nat :=
  List.length (List.filter (fun e => String.eqb (fst e) ev) es).

(** The listener [registerEvents] subscribes for a file, and its being
    among the listeners of an event. *)
Definition subscription (f : string * EventModule) : Listener :=
  mkListener (once_flag (snd f)) (eventCapture (fst f) (callback (snd f))).

Definition subscribed (em : gmap string (list Listener)) (ev : string)
    (f : string * EventModule) : Prop :=
  In (subscription f) (listeners em ev).

(** An emitter whose listeners are the wrappers of the files [descr] lists,
    event by event. *)
Definition described (em : gmap string (list Listener))
    (descr : string -> list (string * EventModule)) : Prop :=
  forall ev, listeners em ev = map subscription (descr ev).

Definition repeating (f : string * EventModule) : bool := negb (once_flag (snd f)).

Definition for_event (ev : string) (f : string * EventModule) : bool :=
  String.eqb (event (snd f)) ev.

(** The description after an emission of [ev]. *)
Definition after_emit (descr : string -> list (string * EventModule)) (ev : string)
    : string -> list (string * EventModule) :=
  fun ev' => if decide (ev = ev') then List.filter repeating (descr ev) else descr ev'.

(** How many of the files of a list are named [file]. *)
Definition has_name (file : string) (f : string * EventModule) : bool :=
  String.eqb (fst f) file.

Definition named (file : string) (fs : list (string * EventModule)) : nat :=
  List.length (List.filter (has_name file) fs).

(** An events directory used in the examples: two subscribers of [ready],
    one [once] whose callback throws and one repeating whose promise is
    rejected, a file that is not a script, and a subscriber of another event. *)
Definition example_dir : list (string * EventModule) :=
  [ ("ready.js", mkEvent "ready" true (fun _ => Throws "boom"));
    ("log.js", mkEvent "ready" false (fun _ => ReturnsPromise (Rejected "nope")));
    ("notes.txt", mkEvent "ready" false (fun _ => Returns));
    ("join.js", mkEvent "guildMemberAdd" false (fun _ => Returns)) ].

Definition example_emissions : list (string * Args) :=
  [ ("ready", []); ("guildMemberAdd", ["member"]); ("ready", []) ].

End Events.

(** ** Observations on effects and messages *)

(** A call of a callback; a notification of the user; an error log; a
    rejection left unhandled. *)
Definition is_call (e : Effect) : bool :=
  match e with Invoke _ => true | _ => false end.

Definition is_notification (e : Effect) : bool :=
  match e with EditReply _ | FollowUp _ _ => true | _ => false end.



(** The string has a minus sign in it. *)
Definition has_dash (s : string) : bool :=
  existsb (Ascii.eqb "-"%char) (list_ascii_of_string s).

(** ** Registration of the commands *)

Module Registration.

(** What [registerCommands] makes the outside world see. *)
Inductive Output : Set :=
| Info (msg : string)          (* logs.info(msg) *)
| Success (msg : string)       (* logs.success(msg) *)
| Create (json : string)       (* guild.commands.create(builtCommand) *)
| Unhandled (error : string).  (* a rejected promise nobody awaits or catches *)

(** [commandObject.toJSON()]: the built command, or the error the builder
    throws when it does not validate. *)
Inductive Built : Set :=
| Json (j : string)
| Invalid (error : string).

(** [process.argv.includes(flag)] *)
Definition includes (flag : string) (argv : list string) : bool :=
  existsb (String.eqb flag) argv.

Definition update_requested (argv : list string) : bool :=
  includes "--update-commands" argv || includes "-u" argv.

(** The [async] callback of the [forEach] for one key of [this.commands]:
    what it does before [forEach] goes on to the next key, and what follows
    once the awaited promise has settled. [cached] says whether the
    development server is in the guild cache, [create] how the promise of
    [commands.create] settles for a built command. *)
Definition register_command (cached : bool) (create : string -> Settled)
    (entry : string * Built) : list Output * list Output :=
  match snd entry with
  | Invalid e => ([], [Unhandled e])
  | Json j =>
      if cached then
        match create j with
        | Fulfilled => ([Create j], [Info ("Registered command " ++ fst entry)])
        | Rejected e => ([Create j], [Unhandled e])
        end
      else ([], [Info ("Registered command " ++ fst entry)])
  end.

(** [registerCommands()]: the outputs before it returns, in order, and the
    outputs that follow when the promises settle. [entries] are the keys of
    [this.commands] in the order of [Object.keys], each with what its
    builder yields. *)
Definition registerCommands (argv : list string) (entries : list (string * Built))
    (cached : bool) (create : string -> Settled) : list Output * list Output :=
  if negb (includes "--update-commands" argv) && negb (includes "-u" argv)
  then ([Info "Skipping command registration"], [])
  else
    let steps := map (register_command cached create) entries in
    ((Info "Registering commands" :: concat (map fst steps)
        ++ [Success "Commands registered"])%list,
     concat (map snd steps)).

End Registration.

(** ** The summary command and the store *)

Module Summary.
Import Dispatcher.

(** The description of the embed [summary] replies with. *)
Definition description (membersStart membersEnd : Z) : string :=
  "Today, the server has "
  ++ (if membersEnd >=? membersStart then "gained" else "lost") ++ " "
  ++ js_string_of_int (Z.abs (membersEnd - membersStart))
  ++ " members. (" ++ js_string_of_int membersStart ++ " -> "
  ++ js_string_of_int membersEnd ++ ")".

(** What the callback passes to [interaction.reply], when it gets there:
    [membersStart] is the [count] of the first selected row and
    [membersEnd] that of the last. *)
Definition summary_reply (db : Database) (i : Interaction) : option string :=
  match guild i with
  | None => None
  | Some g =>
      match count_today db g with
      | QueryError _ => None
      | Rows todayRecords =>
          match select_recent db g (todayRecords + 1) with
          | QueryError _ => None
          | Rows [] => None
          | Rows (first :: rest) => Some (description first (List.last rest first))
          end
      end
  end.

(** A row of [guildMemberCount]. *)
Record Row : Set := mkRow {
  guildId : string;
  date : Z;
  count : Z
}.

(** [where(eq(guildMemberCount.guildId, g))] *)
Definition of_guild (g : string) (table : list Row) : list Row :=
  List.filter (fun r => String.eqb (guildId r) g) table.

(** [orderBy(desc(guildMemberCount.date))]: insertion into a list that is
    ordered newest first. *)
Fixpoint insert_desc (r : Row) (rs : list Row) : list Row :=
  match rs with
  | [] => [r]
  | x :: rest => if (date x <=? date r)%Z then r :: rs else x :: insert_desc r rest
  end.

Definition order_desc (rs : list Row) : list Row := fold_right insert_desc [] rs.

(** [gt(guildMemberCount.date, startOfToday)] *)
Definition today (startOfToday : Z) (r : Row) : bool := (date r >? startOfToday)%Z.

Definition before_today (startOfToday : Z) (r : Row) : bool := negb (today startOfToday r).

(** The store over a table that answers every query: the [$count] of the
    rows of the guild after [startOfToday], and the select of the rows of
    the guild, newest first, up to the limit. *)
Definition table_store (startOfToday : Z) (table : list Row) : Database :=
  {| count_today := fun g =>
       Rows (Z.of_nat (List.length (List.filter (today startOfToday) (of_guild g table))));
     select_recent := fun g limit =>
       Rows (map count (firstn (Z.to_nat limit) (order_desc (of_guild g table)))) |}.

(** A list of rows in which no row is newer than a row before it. *)
Fixpoint newest_first (rs : list Row) : Prop :=
  match rs with
  | [] => True
  | r :: rest => Forall (fun x => date x <= date r) rest /\ newest_first rest
  end.

(** A table used in the examples: the guild [g] had 100 members two days
    ago, 110 yesterday, then 120 and 125 today; another guild has a row. *)
Definition example_table : list Row :=
  [ mkRow "g" 300 120; mkRow "other" 310 7; mkRow "g" 100 100; mkRow "g" 350 125;
    mkRow "g" 200 110 ].

End Summary.

(** ** Who is subscribed after a sequence of emissions *)

Module Subscriptions.
Import Events.

(** A file is still subscribed to [ev] after the emissions [es] when it
    was registered without [once] or [ev] has not been emitted. *)
Definition still_subscribed (es : list (string * Args)) (ev : string)
    (f : string * EventModule) : bool :=
  repeating f || (emissions_of ev es =? 0)%nat.

(** The files of the directory an emission of [ev] reaches after the
    emissions [es], in the order of the directory. *)
Definition reached (dir : list (string * EventModule)) (es : list (string * Args))
    (ev : string) : list (string * EventModule) :=
  List.filter (still_subscribed es ev) (List.filter (for_event ev) (eventFiles dir)).



End Subscriptions.
(** * Properties *)

(** ** The primitives *)

(** The first and the last round constants and initial words, as published. *)
Example sha256_constants :
  (List.hd 0 Sha256.K, List.last Sha256.K 0, Sha256.ha Sha256.H0, Sha256.hh Sha256.H0)
  = (0x428a2f98, 0xc67178f2, 0x6a09e667, 0x5be0cd19).
Proof. vm_compute. reflexivity. Qed.

(** The published test vectors. *)
Example sha256_abc :
  Sha256.sha256_hex "abc"
  = "ba7816bf8f01cfea414140de5dae2223b00361a396177a9cb410ff61f20015ad".
Proof. vm_compute. reflexivity. Qed.

Example sha256_empty :
  Sha256.sha256_hex ""
  = "e3b0c44298fc1c149afbf4c8996fb92427ae41e4649b934ca495991b7852b855".
Proof. vm_compute. reflexivity. Qed.

Example sha256_two_blocks :
  Sha256.sha256_hex "abcdbcdecdefdefgefghfghighijhijkijkljklmklmnlmnomnopnopq"
  = "248d6a61d20638b8e5c026930c3e6039a33ce45964ff2167f6ecedd419db06c1".
Proof. vm_compute. reflexivity. Qed.

Lemma sha256_hex_length (s : string) : String.length (Sha256.sha256_hex s) = 64%nat.
Proof. reflexivity. Qed.

Lemma sha256_hex_nonempty (s : string) : Sha256.sha256_hex s <> "".
Proof.
  intros E. pose proof (sha256_hex_length s) as L. rewrite E in L. discriminate L.
Qed.

Example js_string_of_int_examples :
  map js_string_of_int [0; 5; 10; 59; -1] = ["0"; "5"; "10"; "59"; "-1"].
Proof. reflexivity. Qed.

Example js_rem_examples :
  map (fun m => js_rem (m - 1) 60) [0; 1; 6; 59] = [-1; 0; 5; 58].
Proof. reflexivity. Qed.

(** 2024-01-10T14:05:00Z, 2024-02-29T23:59:59.999Z, 1970-01-01T00:00:00Z. *)
Example utcDate_examples :
  map utcDate [1704895500000; 1709251199999; 0]
  = [ mkDate 1704895500000 10 14 5; mkDate 1709251199999 29 23 59; mkDate 0 1 0 0 ].
Proof. reflexivity. Qed.

(** ** The credential rotator *)

Section RotatorFacts.
Import Rotator.

Lemma truthy_string_true (s : string) : truthy_string s = true <-> s <> "".
Proof.
  unfold truthy_string. rewrite negb_true_iff. split.
  - intros E ->. discriminate E.
  - intros N. destruct (String.eqb_spec s ""); [contradiction | reflexivity].
Qed.

Lemma truthy_string_false (s : string) : truthy_string s = false <-> s = "".
Proof.
  unfold truthy_string. rewrite negb_false_iff. apply String.eqb_eq.
Qed.

Lemma _isValidHash_spec (h : AuthHash) (hash : string) :
  _isValidHash h hash = true <-> hash = now h \/ hash = prev h.
Proof.
  unfold _isValidHash. rewrite orb_true_iff, !String.eqb_eq. reflexivity.
Qed.

(** A comparison with a non-empty token is the exact comparison; the empty
    token and the absent one get the credential itself. *)
Lemma answer_token (h : AuthHash) (t : string) :
  t <> "" -> answer h (Some t) = RBool (_isValidHash h t).
Proof.
  intros N. unfold answer. apply truthy_string_true in N. rewrite N. reflexivity.
Qed.

Lemma answer_empty (h : AuthHash) : answer h (Some "") = RHash h.
Proof. reflexivity. Qed.

(** The three paths of [authToken]. *)
Lemma authToken_cached h env d1 d2 test :
  expires h > getTime d1 -> authToken h env d1 d2 test = (answer h test, h, []).
Proof.
  intros E. unfold authToken.
  destruct (Z.gtb_spec (expires h) (getTime d1)); [reflexivity | lia].
Qed.

Lemma authToken_missing h env d1 d2 test :
  expires h <= getTime d1 -> truthy env = false ->
  authToken h env d1 d2 test = (RBool false, h, [LogError missing_secret]).
Proof.
  intros E M. unfold authToken.
  destruct (Z.gtb_spec (expires h) (getTime d1)); [lia |].
  destruct env as [auth |]; [| reflexivity].
  simpl in M. rewrite M. reflexivity.
Qed.

Lemma authToken_recomputed h auth d1 d2 test :
  expires h <= getTime d1 -> truthy_string auth = true ->
  let h' := {| now := Sha256.sha256_hex (toHash auth d2);
               prev := Sha256.sha256_hex (previousMinute auth d2);
               expires := getTime d2 + 60000 |} in
  authToken h (Some auth) d1 d2 test = (answer h' test, h', []).
Proof.
  intros E A. unfold authToken.
  destruct (Z.gtb_spec (expires h) (getTime d1)); [lia |].
  rewrite A. reflexivity.
Qed.

(** A credential that has not expired was computed: both of its hashes are
    digests, and a digest is not the empty string. *)
Lemma reachable_unexpired_digests (t : Z) (h : AuthHash) :
  reachable t h -> expires h <= t \/ (now h <> "" /\ prev h <> "").
Proof.
  induction 1 as [t0 | t h env d1 d2 test r h' log R IH L1 L2 Call].
  - left. simpl. lia.
  - assert (Kept : expires h <= getTime d2 \/ (now h <> "" /\ prev h <> "")).
    { destruct IH as [IH | IH]; [left; lia | right; exact IH]. }
    unfold authToken in Call.
    destruct (expires h >? getTime d1); [inversion Call; subst; exact Kept |].
    destruct env as [auth |]; [| inversion Call; subst; exact Kept].
    destruct (truthy_string auth); [| inversion Call; subst; exact Kept].
    inversion Call; subst. right. simpl. split; apply sha256_hex_nonempty.
Qed.

(** C1. With the secret configured, for every token and every credential a
    client can come to hold, [authToken(token)] returns [true] exactly when
    the token is equal, as a whole string, to [now] or to [prev] of the
    credential that is stored once the lazy refresh has run, which is the
    credential a call without argument returns. *)
Theorem validate_iff_current_or_previous :
  forall (t : Z) (h : AuthHash) (auth : string) (d1 d2 : Date) (token : string)
         (r : AuthResult) (h' : AuthHash) (log : list Effect),
    reachable t h -> t <= getTime d1 ->
    truthy_string auth = true ->
    authToken h (Some auth) d1 d2 (Some token) = (r, h', log) ->
    authToken h (Some auth) d1 d2 None = (RHash h', h', log)
    /\ (r = RBool true <-> token = now h' \/ token = prev h').
Proof.
  intros t h auth d1 d2 token r h' log R L A Call.
  assert (Fresh : r = answer h' (Some token)
                  /\ authToken h (Some auth) d1 d2 None = (RHash h', h', log)
                  /\ now h' <> "" /\ prev h' <> "").
  { destruct (Z.le_gt_cases (expires h) (getTime d1)) as [E | E].
    - rewrite (authToken_recomputed h auth d1 d2 _ E A) in Call.
      rewrite (authToken_recomputed h auth d1 d2 _ E A).
      inversion Call; subst. simpl.
      repeat split; try reflexivity; apply sha256_hex_nonempty.
    - apply Z.lt_gt in E.
      rewrite (authToken_cached h _ d1 d2 _ E) in Call.
      rewrite (authToken_cached h _ d1 d2 _ E).
      inversion Call; subst. simpl.
      destruct (reachable_unexpired_digests t h' R) as [X | [X1 X2]]; [lia |].
      repeat split; try reflexivity; assumption. }
  destruct Fresh as (-> & Hnone & Nn & Np). split; [exact Hnone |].
  destruct (String.eqb_spec token "") as [-> | Ne].
  - rewrite answer_empty. split.
    + intros X. discriminate X.
    + intros [X | X]; [destruct Nn | destruct Np]; symmetry; exact X.
  - rewrite answer_token by exact Ne. rewrite <- _isValidHash_spec.
    split; [intros X; inversion X; reflexivity | intros ->; reflexivity].
Qed.

Lemma validate_iff_current_or_previous_witness :
  let d := utcDate 1704895500000 in
  let token := "28fbe1e8a8f962db20c5641dcda204978ed9af86aa9a3bf1ce472c998327a28e" in
  let h' := {| now := token;
               prev := "bdc6e2bec62d7a5f5f6c22f7b7dc7c800b75c7e1008b1d122136b0d1e77305e3";
               expires := 1704895560000 |} in
  authToken (initial 1704895000000) (Some "s3cr3t") d d None = (RHash h', h', [])
  /\ (RBool true = RBool true <-> token = now h' \/ token = prev h').
Proof.
  intros d token h'.
  apply (validate_iff_current_or_previous
           1704895000000 (initial 1704895000000) "s3cr3t" d d token (RBool true) h' []).
  - apply reach_new.
  - simpl. lia.
  - reflexivity.
  - vm_compute. reflexivity.
Defined.

(** The minute field of the second message, away from minute 0. *)
Lemma previousMinute_positive_minute (auth : string) (d : Date) :
  1 <= getMinutes d <= 59 ->
  previousMinute auth d
  = auth ++ js_string_of_int (getDate d) ++ js_string_of_int (getHours d)
         ++ js_string_of_int (getMinutes d - 1).
Proof.
  intros M. unfold previousMinute, js_rem.
  rewrite Z.rem_small by lia. reflexivity.
Qed.

(** C2. At minute 0 the second message ends in [-1], for every secret, day
    and hour: the remainder of [0 - 1] by 60 keeps the sign of the dividend,
    so the minute is not wrapped to 59. The day and the hour are those of
    the first message. *)
Theorem previous_minute_at_minute_zero :
  forall (auth : string) (t day hour : Z),
    let d := mkDate t day hour 0 in
    previousMinute auth d
    = auth ++ js_string_of_int day ++ js_string_of_int hour ++ "-1"
    /\ toHash auth d = auth ++ js_string_of_int day ++ js_string_of_int hour ++ "0".
Proof. intros auth t day hour d. split; reflexivity. Qed.

(** On day 10 at 14:00 the stored [prev] is the digest of [s3cr3t1014-1],
    and the token that was current at 13:59 is refused. *)
Example minute_zero_previous_hash :
  let d := utcDate 1704895200000 in
  let at_13_59 := Sha256.sha256_hex "s3cr3t101359" in
  authToken (initial 0) (Some "s3cr3t") d d (Some at_13_59)
  = (RBool false,
     {| now := "96a1d05c2c34802015e1ecb3e7d073553e31dc5fdde1b431a403594cfc458caf";
        prev := "c4a5fd7e040e76cddb32fdd30c25c66f577e210ff4faae5de4f6b03c57ea8626";
        expires := 1704895260000 |}, [])
  /\ Sha256.sha256_hex "s3cr3t1014-1"
     = "c4a5fd7e040e76cddb32fdd30c25c66f577e210ff4faae5de4f6b03c57ea8626".
Proof. vm_compute. split; reflexivity. Qed.

(** C3. The empty token is not compared: whenever the cached credential has
    not expired or the secret is there, [authToken("")] is the call without
    argument, its result is the credential object with both hashes, and that
    object is truthy. *)
Theorem empty_token_returns_credential :
  forall (h : AuthHash) (env : option string) (d1 d2 : Date),
    expires h > getTime d1 \/ truthy env = true ->
    exists h' : AuthHash,
      authToken h env d1 d2 (Some "") = (RHash h', h', [])
      /\ authToken h env d1 d2 None = (RHash h', h', [])
      /\ truthy_result (RHash h') = true.
Proof.
  intros h env d1 d2 [E | S].
  - exists h. rewrite !(authToken_cached h env d1 d2 _ E). repeat split.
  - destruct (Z.le_gt_cases (expires h) (getTime d1)) as [E | E].
    + destruct env as [auth |]; [| discriminate S]. simpl in S.
      eexists. rewrite !(authToken_recomputed h auth d1 d2 _ E S).
      repeat split.
    + apply Z.lt_gt in E. exists h.
      rewrite !(authToken_cached h env d1 d2 _ E). repeat split.
Qed.

Lemma empty_token_returns_credential_witness :
  exists h' : AuthHash,
    authToken (initial 0) (Some "s3cr3t") (utcDate 1704895500000)
              (utcDate 1704895500000) (Some "") = (RHash h', h', [])
    /\ authToken (initial 0) (Some "s3cr3t") (utcDate 1704895500000)
                 (utcDate 1704895500000) None = (RHash h', h', [])
    /\ truthy_result (RHash h') = true.
Proof.
  apply (empty_token_returns_credential
           (initial 0) (Some "s3cr3t") (utcDate 1704895500000) (utcDate 1704895500000)).
  right. reflexivity.
Defined.

(** C4. When the credential has to be generated and the secret is not in
    the environment (unset, or set to the empty string), [authToken] logs
    the missing secret and returns [false], whatever the token, and the
    stored credential stays as it was. *)
Theorem missing_secret_rejects :
  forall (h : AuthHash) (env : option string) (d1 d2 : Date) (test : option string),
    expires h <= getTime d1 -> truthy env = false ->
    authToken h env d1 d2 test = (RBool false, h, [LogError missing_secret]).
Proof. intros h env d1 d2 test E M. exact (authToken_missing h env d1 d2 test E M). Qed.

Lemma missing_secret_rejects_witness :
  authToken (initial 0) None (utcDate 1704895500000) (utcDate 1704895500000)
            (Some "28fbe1e8a8f962db20c5641dcda204978ed9af86aa9a3bf1ce472c998327a28e")
  = (RBool false, initial 0, [LogError missing_secret]).
Proof.
  apply (missing_secret_rejects (initial 0) None (utcDate 1704895500000)
           (utcDate 1704895500000)).
  - simpl. lia.
  - reflexivity.
Defined.

(** C5. A recomputation at the clock reading [d2] stores as [now] the
    SHA-256 digest of the secret followed by the decimal day of the month,
    hour and minute of [d2], and as [expires] the instant of [d2] plus
    60000 ms. With the secret [s3cr3t] on day 10 at 14:05 that is the digest
    of [s3cr3t10145]; a recomputation at 14:06 of that day stores it as
    [prev], and the token is then accepted. *)
Theorem recompute_hashes_secret_day_hour_minute :
  forall (h : AuthHash) (auth : string) (d1 d2 : Date) (test : option string)
         (r : AuthResult) (h' : AuthHash) (log : list Effect),
    expires h <= getTime d1 -> truthy_string auth = true ->
    authToken h (Some auth) d1 d2 test = (r, h', log) ->
    now h' = Sha256.sha256_hex
               (auth ++ js_string_of_int (getDate d2) ++ js_string_of_int (getHours d2)
                     ++ js_string_of_int (getMinutes d2))
    /\ expires h' = getTime d2 + 60000
    /\ (auth = "s3cr3t" -> getDate d2 = 10 -> getHours d2 = 14 -> getMinutes d2 = 5 ->
        now h' = Sha256.sha256_hex ("s3cr3t" ++ "10" ++ "14" ++ "5")
        /\ forall d3 d4 : Date,
             expires h' <= getTime d3 ->
             getDate d4 = 10 -> getHours d4 = 14 -> getMinutes d4 = 6 ->
             exists h'' : AuthHash,
               authToken h' (Some "s3cr3t") d3 d4 (Some (now h')) = (RBool true, h'', [])
               /\ prev h'' = now h').
Proof.
  intros h auth d1 d2 test r h' log E A Call.
  rewrite (authToken_recomputed h auth d1 d2 _ E A) in Call.
  inversion Call; subst; clear Call. cbn [now prev expires].
  split; [reflexivity |]. split; [reflexivity |].
  intros -> Dd Dh Dm.
  assert (N5 : toHash "s3cr3t" d2 = "s3cr3t10145").
  { unfold toHash. rewrite Dd, Dh, Dm. reflexivity. }
  rewrite N5. split; [reflexivity |].
  intros d3 d4 E' Dd' Dh' Dm'.
  assert (P6 : previousMinute "s3cr3t" d4 = "s3cr3t10145").
  { unfold previousMinute. rewrite Dd', Dh', Dm'. reflexivity. }
  exists {| now := Sha256.sha256_hex (toHash "s3cr3t" d4);
            prev := Sha256.sha256_hex (previousMinute "s3cr3t" d4);
            expires := getTime d4 + 60000 |}.
  rewrite authToken_recomputed by (exact E' || reflexivity).
  rewrite P6. cbn [now prev expires]. split; [| reflexivity].
  rewrite answer_token by apply sha256_hex_nonempty.
  unfold _isValidHash. cbn [now prev expires].
  rewrite (String.eqb_refl (Sha256.sha256_hex "s3cr3t10145")), orb_true_r.
  reflexivity.
Qed.

Lemma recompute_hashes_secret_day_hour_minute_witness :
  let d5 := utcDate 1704895500000 in
  let h5 := {| now := "28fbe1e8a8f962db20c5641dcda204978ed9af86aa9a3bf1ce472c998327a28e";
               prev := "bdc6e2bec62d7a5f5f6c22f7b7dc7c800b75c7e1008b1d122136b0d1e77305e3";
               expires := 1704895560000 |} in
  now h5 = Sha256.sha256_hex
             ("s3cr3t" ++ js_string_of_int (getDate d5) ++ js_string_of_int (getHours d5)
                       ++ js_string_of_int (getMinutes d5))
  /\ expires h5 = getTime d5 + 60000
  /\ ("s3cr3t" = "s3cr3t" -> getDate d5 = 10 -> getHours d5 = 14 -> getMinutes d5 = 5 ->
      now h5 = Sha256.sha256_hex ("s3cr3t" ++ "10" ++ "14" ++ "5")
      /\ forall d3 d4 : Date,
           expires h5 <= getTime d3 ->
           getDate d4 = 10 -> getHours d4 = 14 -> getMinutes d4 = 6 ->
           exists h'' : AuthHash,
             authToken h5 (Some "s3cr3t") d3 d4 (Some (now h5)) = (RBool true, h'', [])
             /\ prev h'' = now h5).
Proof.
  intros d5 h5.
  apply (recompute_hashes_secret_day_hour_minute
           (initial 1704895000000) "s3cr3t" d5 d5 None (RHash h5) h5 []).
  - simpl. lia.
  - reflexivity.
  - vm_compute. reflexivity.
Defined.

(** A call without argument that returns a credential has stored it. *)
Lemma authToken_returns_stored h env d1 d2 c h1 log :
  authToken h env d1 d2 None = (RHash c, h1, log) -> c = h1.
Proof.
  unfold authToken.
  destruct (expires h >? getTime d1); [intros X; inversion X; reflexivity |].
  destruct env as [auth |]; [| intros X; discriminate X].
  destruct (truthy_string auth); intros X; [inversion X; reflexivity | discriminate X].
Qed.

(** C6. While [expires] is in the future, [authToken()] returns the stored
    credential, stores nothing and logs nothing, whatever the environment
    and the clock would give a recomputation; hence once a call has returned
    a credential, be it cached or just computed, every call made before that
    credential expires returns the same one and leaves it stored. *)
Theorem cached_credential_returned_unchanged :
  (forall (h : AuthHash) (env : option string) (d1 d2 : Date),
     expires h > getTime d1 ->
     authToken h env d1 d2 None = (RHash h, h, []))
  /\ (forall (h : AuthHash) (env : option string) (d1 d2 : Date)
             (c h1 : AuthHash) (log : list Effect),
        authToken h env d1 d2 None = (RHash c, h1, log) ->
        forall (env' : option string) (d3 d4 : Date),
          getTime d3 < expires c ->
          authToken h1 env' d3 d4 None = (RHash c, h1, [])).
Proof.
  split.
  - intros h env d1 d2 E. exact (authToken_cached h env d1 d2 None E).
  - intros h env d1 d2 c h1 log Call env' d3 d4 W.
    apply authToken_returns_stored in Call. subst h1.
    apply (authToken_cached c env' d3 d4 None). lia.
Qed.

Lemma cached_credential_returned_unchanged_witness :
  let h5 := {| now := "28fbe1e8a8f962db20c5641dcda204978ed9af86aa9a3bf1ce472c998327a28e";
               prev := "bdc6e2bec62d7a5f5f6c22f7b7dc7c800b75c7e1008b1d122136b0d1e77305e3";
               expires := 1704895560000 |} in
  authToken h5 None (utcDate 1704895530000) (utcDate 1704895530001) None = (RHash h5, h5, [])
  /\ authToken h5 (Some "other") (utcDate 1704895559999) (utcDate 1704895560000) None
     = (RHash h5, h5, []).
Proof.
  intros h5. split.
  - apply (proj1 cached_credential_returned_unchanged). simpl. lia.
  - apply (proj2 cached_credential_returned_unchanged
             (initial 1704895000000) (Some "s3cr3t") (utcDate 1704895500000)
             (utcDate 1704895500000) h5 h5 []).
    + vm_compute. reflexivity.
    + simpl. lia.
Defined.

(** The end of the scenario: at 14:07 the token of 14:05 is refused. *)
Example scenario_minute_seven_rejects :
  let h6 := {| now := Sha256.sha256_hex "s3cr3t10146";
               prev := Sha256.sha256_hex "s3cr3t10145";
               expires := 1704895620000 |} in
  fst (fst (authToken h6 (Some "s3cr3t") (utcDate 1704895620000) (utcDate 1704895620000)
                      (Some (Sha256.sha256_hex "s3cr3t10145")))) = RBool false.
Proof. vm_compute. reflexivity. Qed.

End RotatorFacts.

(** ** The command dispatcher *)

Section DispatcherFacts.
Import Dispatcher.

(** The promise of [commandHandler] is never rejected. *)
Lemma commandHandler_fulfilled (cs : gmap string extendedCommand) (i : Interaction) :
  snd (commandHandler cs i) = Fulfilled.
Proof.
  unfold commandHandler. destruct (negb (isCommand i)); [reflexivity |].
  destruct (get cs (commandName i)) as [c | |]; try reflexivity.
  destruct (callback c i); reflexivity.
Qed.

Lemma get_own (cs : gmap string extendedCommand) (name : string) (c : extendedCommand) :
  cs !! name = Some c -> get cs name = Own c.
Proof. intros L. unfold get. rewrite L. reflexivity. Qed.

(** A callback that throws before it returns is caught: one log line and
    one notification, an edit when the interaction was replied to. *)
Lemma commandHandler_throwing cs i c e :
  isCommand i = true -> cs !! commandName i = Some c -> callback c i = Throws e ->
  commandHandler cs i
  = (Invoke (commandName i) :: LogError ("Error in command callback: " ++ e)
       :: (if replied i then EditReply failure_message :: dropped (editReply i)
           else FollowUp failure_message true :: dropped (followUp i)),
     Fulfilled).
Proof.
  intros C L T. unfold commandHandler. rewrite C, (get_own _ _ _ L), T. reflexivity.
Qed.

(** A callback that returns a promise is not awaited: when the promise is
    rejected nothing is logged and nobody is notified. *)
Lemma commandHandler_rejecting cs i c e :
  isCommand i = true -> cs !! commandName i = Some c ->
  callback c i = ReturnsPromise (Rejected e) ->
  commandHandler cs i = ([Invoke (commandName i); UnhandledRejection e], Fulfilled).
Proof.
  intros C L T. unfold commandHandler. rewrite C, (get_own _ _ _ L), T. reflexivity.
Qed.

(** A name that is neither in the table nor inherited is ignored. *)
Lemma commandHandler_unknown cs i :
  cs !! commandName i = None -> commandName i ∉ object_prototype ->
  commandHandler cs i = ([], Fulfilled).
Proof.
  intros L N. unfold commandHandler, get. rewrite L.
  rewrite bool_decide_eq_false_2 by exact N.
  destruct (negb (isCommand i)); reflexivity.
Qed.

Lemma commands_summary ping db : commands ping db !! "summary" = Some (summary db).
Proof.
  unfold commands. rewrite lookup_insert_ne by discriminate.
  apply lookup_insert_eq.
Qed.

Lemma commands_other ping db name :
  name <> "ping" -> name <> "summary" -> commands ping db !! name = None.
Proof.
  intros N1 N2. unfold commands.
  rewrite !lookup_insert_ne by congruence. apply lookup_empty.
Qed.

(** C7. The [summary] command on a guild without records: the select
    yields no row, reading [count] of the first row rejects the promise of
    the callback, and [commandHandler], which does not await it, logs
    nothing and notifies nobody; the rejection is left unhandled. *)
Theorem rejected_handler_is_not_caught :
  forall (ping : extendedCommand) (today : Z) (was_replied : bool) (p1 p2 p3 : Settled),
    let db := {| count_today := fun _ => Rows today;
                 select_recent := fun _ _ => Rows [] |} in
    let i := mkInteraction true "summary" was_replied (Some "guild") p1 p2 p3 in
    commandHandler (commands ping db) i
    = ([Invoke "summary"; UnhandledRejection reading_count_of_undefined], Fulfilled).
Proof.
  intros ping today was_replied p1 p2 p3 db i.
  apply (commandHandler_rejecting _ i (summary db)).
  - reflexivity.
  - apply commands_summary.
  - reflexivity.
Qed.

(** C10. The name [constructor] is not in the table, but the table
    inherits it: the lookup is truthy, its [callback] is not a function, the
    call throws inside the [try], and the dispatcher logs an error and sends
    the failure message. *)
Theorem inherited_name_is_not_ignored :
  forall (ping : extendedCommand) (db : Database) (g : option string) (p1 p2 p3 : Settled),
    let i := mkInteraction true "constructor" false g p1 p2 p3 in
    commands ping db !! "constructor" = None
    /\ commandHandler (commands ping db) i
       = (LogError ("Error in command callback: " ++ not_a_function)
            :: FollowUp failure_message true :: dropped p3, Fulfilled).
Proof.
  intros ping db g p1 p2 p3 i.
  assert (L : commands ping db !! "constructor" = None).
  { apply commands_other; discriminate. }
  split; [exact L |].
  unfold commandHandler, get. cbn [isCommand commandName i negb]. rewrite L.
  reflexivity.
Qed.

(** A callback that throws before returning, on an interaction that was
    replied to: logged, and the reply is edited. *)
Example throwing_handler_is_caught :
  let cs : gmap string extendedCommand := {[ "ping" := mkCommand (fun _ => Throws "Error: boom") ]} in
  commandHandler cs (mkInteraction true "ping" true None Fulfilled Fulfilled Fulfilled)
  = ([ Invoke "ping"; LogError "Error in command callback: Error: boom";
       EditReply failure_message ], Fulfilled).
Proof. vm_compute. reflexivity. Qed.

End DispatcherFacts.

(** ** Lifecycle events *)

Section EventsFacts.
Import Events.

Lemma listeners_insert (em : gmap string (list Listener)) ev ls ev' :
  listeners (<[ev := ls]> em) ev' = if decide (ev = ev') then ls else listeners em ev'.
Proof.
  unfold listeners. rewrite lookup_insert. destruct (decide (ev = ev')); reflexivity.
Qed.

(** Both branches of [register] append the wrapper of the file. *)
Lemma register_listeners (em : gmap string (list Listener)) f ev :
  listeners (register em f) ev
  = if decide (event (snd f) = ev) then (listeners em ev ++ [subscription f])%list
    else listeners em ev.
Proof.
  unfold register, on, once, subscription.
  destruct (once_flag (snd f)); rewrite listeners_insert;
    destruct (decide (event (snd f) = ev)) as [-> |]; reflexivity.
Qed.

(** The wrapper never throws and the promise it returns is never rejected. *)
Lemma eventCapture_result name cb args :
  result (eventCapture name cb args) = ReturnsPromise Fulfilled.
Proof.
  unfold eventCapture. destruct (cb args) as [e | | [| e]]; reflexivity.
Qed.

(** It calls the callback once, whatever the callback does. *)
Lemma eventCapture_invokes name cb args :
  exists rest, sync (eventCapture name cb args) = Invoke name :: rest
               /\ forall n, List.filter (is_invoke n) rest = [].
Proof.
  unfold eventCapture. destruct (cb args) as [e | | [| e]]; eexists; split;
    try reflexivity; intros n; reflexivity.
Qed.

Lemma eventCapture_runs name cb args n :
  List.length (List.filter (is_invoke n) (sync (eventCapture name cb args)))
  = if String.eqb name n then 1%nat else 0%nat.
Proof.
  destruct (eventCapture_invokes name cb args) as (rest & -> & R).
  simpl. destruct (String.eqb name n); simpl; rewrite R; reflexivity.
Qed.

(** It logs the error of a callback that throws or whose promise is rejected. *)
Lemma eventCapture_logs name cb args e :
  cb args = Throws e \/ cb args = ReturnsPromise (Rejected e) ->
  In (LogError (event_error name e))
     (sync (eventCapture name cb args) ++ later (eventCapture name cb args))%list.
Proof.
  unfold eventCapture. intros [-> | ->]; simpl; auto.
Qed.

Lemma described_empty : described ∅ (fun _ => []).
Proof. intros ev. reflexivity. Qed.

Lemma described_register em descr fs :
  described em descr ->
  described (fold_left register fs em)
            (fun ev => (descr ev ++ List.filter (for_event ev) fs)%list).
Proof.
  revert em descr. induction fs as [| f fs IH]; intros em descr D.
  - intros ev. simpl. rewrite app_nil_r. apply D.
  - simpl fold_left.
    specialize (IH (register em f)
                   (fun ev => (descr ev ++ List.filter (for_event ev) [f])%list)).
    intros ev. rewrite IH.
    + simpl. unfold for_event at 1 3.
      destruct (String.eqb_spec (event (snd f)) ev);
        rewrite <- ?app_assoc; reflexivity.
    + intros ev'. rewrite register_listeners, D. simpl. unfold for_event.
      destruct (decide (event (snd f) = ev')) as [E | E];
        destruct (String.eqb_spec (event (snd f)) ev'); try contradiction.
      * rewrite map_app. reflexivity.
      * rewrite app_nil_r. reflexivity.
Qed.

(** Firing wrappers: every one of them is called, the [once] ones are gone,
    and nothing is thrown. *)
Lemma fire_subscriptions (fs : list (string * EventModule)) (args : Args) :
  fire (map subscription fs) args
  = (map subscription (List.filter repeating fs),
     mkEmission (flat_map (fun f => sync (run (subscription f) args)) fs)
                (flat_map (fun f => later (run (subscription f) args)) fs)
                None).
Proof.
  induction fs as [| f fs IH]; [reflexivity |].
  cbn [map fire flat_map]. rewrite IH.
  cbn [run subscription]. rewrite eventCapture_result.
  cbn [during after thrown dropped app List.filter].
  unfold repeating at 2.
  change (once_only (subscription f)) with (once_flag (snd f)).
  destruct (once_flag (snd f)); reflexivity.
Qed.

Lemma emit_described em descr ev args :
  described em descr ->
  exists em1,
    emit em ev args
    = (em1, mkEmission (flat_map (fun f => sync (run (subscription f) args)) (descr ev))
                       (flat_map (fun f => later (run (subscription f) args)) (descr ev))
                       None)
    /\ described em1 (after_emit descr ev).
Proof.
  intros D. unfold emit. pose proof (D ev) as Dev. unfold listeners in Dev.
  destruct (em !! ev) as [ls |] eqn:L; simpl in Dev.
  - rewrite Dev, fire_subscriptions. eexists. split; [reflexivity |].
    intros ev'. rewrite listeners_insert. unfold after_emit.
    destruct (decide (ev = ev')); [reflexivity | apply D].
  - symmetry in Dev. apply map_eq_nil in Dev. rewrite Dev.
    exists em. split; [reflexivity |].
    intros ev'. unfold after_emit.
    destruct (decide (ev = ev')) as [<- |]; [| apply D].
    rewrite Dev. simpl. unfold listeners. rewrite L. reflexivity.
Qed.

Lemma emitAll_cons em ev args es :
  emitAll em ((ev, args) :: es)
  = (fst (emitAll (fst (emit em ev args)) es),
     snd (emit em ev args) :: snd (emitAll (fst (emit em ev args)) es)).
Proof.
  simpl. destruct (emit em ev args) as [em1 out]. simpl.
  destruct (emitAll em1 es) as [em2 outs]. reflexivity.
Qed.

Lemma runs_cons file out outs :
  runs file (out :: outs)
  = (List.length (List.filter (is_invoke file) (during out)) + runs file outs)%nat.
Proof.
  unfold runs. simpl. rewrite List.filter_app, length_app. reflexivity.
Qed.

(** An emission to wrappers calls the callback of [file] as many times as
    [file] is subscribed. *)
Lemma runs_flat_map file args fs :
  List.length (List.filter (is_invoke file)
                 (flat_map (fun f => sync (run (subscription f) args)) fs))
  = named file fs.
Proof.
  unfold named. induction fs as [| f fs IH]; [reflexivity |].
  cbn [flat_map List.filter]. rewrite List.filter_app, length_app, IH.
  cbn [run subscription]. rewrite eventCapture_runs. unfold has_name.
  destruct (String.eqb (fst f) file); reflexivity.
Qed.

Lemma filter_filter_comm {A : Type} (p q : A -> bool) (l : list A) :
  List.filter p (List.filter q l) = List.filter q (List.filter p l).
Proof.
  induction l as [| a l IH]; [reflexivity |]. simpl.
  destruct (p a) eqn:P, (q a) eqn:Q; simpl; rewrite ?P, ?Q, IH; reflexivity.
Qed.

Lemma named_filter_le file p fs : (named file (List.filter p fs) <= named file fs)%nat.
Proof.
  unfold named. rewrite filter_filter_comm.
  induction (List.filter (has_name file) fs) as [| a l IH]; [reflexivity |].
  simpl. destruct (p a); simpl; lia.
Qed.

(** Among subscriptions of [file] that all carry the flag [b], an emission
    keeps them all or drops them all. *)
Lemma named_filter_repeating file b fs :
  (forall f, In f fs -> fst f = file -> once_flag (snd f) = b) ->
  named file (List.filter repeating fs) = if b then 0%nat else named file fs.
Proof.
  unfold named. induction fs as [| f fs IH]; intros Hb.
  - destruct b; reflexivity.
  - assert (Hfs : forall g, In g fs -> fst g = file -> once_flag (snd g) = b).
    { intros g G. apply Hb. right. exact G. }
    specialize (IH Hfs). simpl. unfold has_name at 2, repeating at 1.
    destruct (String.eqb_spec (fst f) file) as [E | E].
    + rewrite (Hb f (or_introl eq_refl) E). destruct b; simpl.
      * exact IH.
      * unfold has_name at 1. rewrite E, String.eqb_refl. simpl. rewrite IH. reflexivity.
    + destruct (negb (once_flag (snd f))); simpl; [| exact IH].
      unfold has_name at 1. destruct (String.eqb_spec (fst f) file); [contradiction |].
      exact IH.
Qed.

(** Two wrappers that are the same listener are wrappers of the same file. *)
Lemma subscription_name f g : subscription f = subscription g -> fst f = fst g.
Proof.
  intros E. apply (f_equal (fun l => sync (run l []))) in E. cbn [run subscription] in E.
  destruct (eventCapture_invokes (fst f) (callback (snd f)) []) as (r1 & E1 & _).
  destruct (eventCapture_invokes (fst g) (callback (snd g)) []) as (r2 & E2 & _).
  rewrite E1, E2 in E. congruence.
Qed.

Lemma named_zero_not_subscribed em descr ev f :
  described em descr -> named (fst f) (descr ev) = 0%nat -> ~ subscribed em ev f.
Proof.
  intros D Z S. unfold subscribed in S. rewrite D in S.
  apply in_map_iff in S. destruct S as (g & E & G).
  apply subscription_name in E.
  assert (X : In g (List.filter (has_name (fst f)) (descr ev))).
  { apply filter_In. split; [exact G |]. unfold has_name. rewrite E. apply String.eqb_refl. }
  unfold named in Z. destruct (List.filter (has_name (fst f)) (descr ev));
    [destruct X | discriminate Z].
Qed.

Lemma emissions_of_cons e0 ev args es :
  emissions_of e0 ((ev, args) :: es)
  = ((if String.eqb ev e0 then 1 else 0) + emissions_of e0 es)%nat.
Proof.
  unfold emissions_of. simpl. destruct (String.eqb ev e0); reflexivity.
Qed.

(** The runs of the callback of [file] over a sequence of emissions, when
    [file] is subscribed to the event [e0] only and all its subscriptions
    carry the flag [b]; and what is left of them afterwards. *)
Lemma emitAll_runs (file e0 : string) (b : bool) (es : list (string * Args)) :
  forall em descr,
    described em descr ->
    (forall ev, ev <> e0 -> named file (descr ev) = 0%nat) ->
    (forall f, In f (descr e0) -> fst f = file -> once_flag (snd f) = b) ->
    runs file (snd (emitAll em es))
    = ((if b then Nat.min 1 (emissions_of e0 es) else emissions_of e0 es)
       * named file (descr e0))%nat
    /\ exists descr',
         described (fst (emitAll em es)) descr'
         /\ named file (descr' e0)
            = if b && (0 <? emissions_of e0 es)%nat then 0%nat else named file (descr e0).
Proof.
  induction es as [| [ev args] es IH]; intros em descr D Others Flag.
  - split.
    + destruct b; simpl; reflexivity.
    + exists descr. split; [exact D |]. rewrite andb_false_r. reflexivity.
  - rewrite emitAll_cons. cbn [fst snd].
    destruct (emit_described em descr ev args D) as (em1 & E & D1).
    rewrite E. cbn [fst snd].
    assert (Others1 : forall ev', ev' <> e0 -> named file (after_emit descr ev ev') = 0%nat).
    { intros ev' N. unfold after_emit. destruct (decide (ev = ev')) as [-> |].
      - pose proof (named_filter_le file repeating (descr ev')) as Le.
        rewrite (Others ev' N) in Le. lia.
      - apply Others, N. }
    assert (Flag1 : forall f, In f (after_emit descr ev e0) -> fst f = file ->
                              once_flag (snd f) = b).
    { intros f. unfold after_emit. destruct (decide (ev = e0)) as [-> |].
      - intros F. apply filter_In in F. apply Flag, F.
      - apply Flag. }
    destruct (IH em1 (after_emit descr ev) D1 Others1 Flag1) as (R & descr' & D' & N').
    rewrite runs_cons, R. cbn [during]. rewrite runs_flat_map.
    rewrite emissions_of_cons.
    assert (Now : named file (after_emit descr ev e0)
                  = if String.eqb ev e0
                    then (if b then 0%nat else named file (descr e0))
                    else named file (descr e0)).
    { unfold after_emit. destruct (decide (ev = e0)) as [-> | Ne].
      - rewrite String.eqb_refl. apply named_filter_repeating, Flag.
      - destruct (String.eqb_spec ev e0); [contradiction | reflexivity]. }
    split.
    + rewrite Now. destruct (String.eqb_spec ev e0) as [-> | Ne].
      * destruct b; simpl; lia.
      * rewrite (Others ev Ne). simpl. reflexivity.
    + exists descr'. split; [exact D' |]. rewrite N', Now.
      destruct (String.eqb_spec ev e0) as [-> | Ne]; destruct b; simpl; try reflexivity.
      destruct (0 <? emissions_of e0 es)%nat; reflexivity.
Qed.

(** In a directory, which has no two files of the same name, the files
    named [file] are the one file. *)
Lemma filter_has_name (fs : list (string * EventModule)) file m :
  NoDup (map fst fs) -> In (file, m) fs ->
  List.filter (has_name file) fs = [(file, m)].
Proof.
  induction fs as [| [n x] fs IH]; intros ND I; [destruct I |].
  simpl in ND. apply NoDup_cons in ND. destruct ND as [Fresh ND].
  assert (Absent : n = file -> List.filter (has_name file) fs = []).
  { intros ->. clear -Fresh. induction fs as [| [n y] fs IH]; [reflexivity |].
    simpl in Fresh. apply not_elem_of_cons in Fresh. destruct Fresh as [Ne Fresh].
    simpl. unfold has_name at 1. simpl.
    destruct (String.eqb_spec n file); [congruence | apply IH, Fresh]. }
  simpl. unfold has_name at 1. simpl.
  destruct I as [I | I].
  - inversion I; subst. rewrite String.eqb_refl, Absent; reflexivity.
  - destruct (String.eqb_spec n file) as [-> | Ne]; [| apply IH; assumption].
    exfalso. apply Fresh. apply list_elem_of_In.
    apply in_map_iff. exists (file, m). split; [reflexivity | exact I].
Qed.

(** C8. After [registerEvents], over any sequence of emissions, the
    callback of a file registered with [once] runs at the first emission of
    its event and at no other (once in all when there is one, never
    otherwise), and after that emission its subscription is absent from the
    emitter, however many emissions follow; the callback of a file
    registered without [once] runs once for every emission of its event. *)
Theorem once_runs_once_repeating_runs_every_time :
  forall (dir : list (string * EventModule)) (es : list (string * Args))
         (file : string) (m : EventModule),
    NoDup (map fst (eventFiles dir)) -> In (file, m) (eventFiles dir) ->
    let em := registerEvents dir ∅ in
    (once_flag m = true ->
       runs file (snd (emitAll em es)) = Nat.min 1 (emissions_of (event m) es)
       /\ ((0 < emissions_of (event m) es)%nat ->
           ~ subscribed (fst (emitAll em es)) (event m) (file, m)))
    /\ (once_flag m = false ->
          runs file (snd (emitAll em es)) = emissions_of (event m) es).
Proof.
  intros dir es file m ND I em.
  pose (descr := fun ev => ([] ++ List.filter (for_event ev) (eventFiles dir))%list).
  assert (D : described em descr).
  { apply (described_register ∅ (fun _ => []) (eventFiles dir)), described_empty. }
  pose proof (filter_has_name (eventFiles dir) file m ND I) as One.
  assert (Named : forall ev, named file (descr ev)
                             = if String.eqb (event m) ev then 1%nat else 0%nat).
  { intros ev. unfold named, descr. simpl.
    rewrite filter_filter_comm, One. simpl. unfold for_event. simpl.
    destruct (String.eqb (event m) ev); reflexivity. }
  assert (Others : forall ev, ev <> event m -> named file (descr ev) = 0%nat).
  { intros ev N. rewrite Named.
    destruct (String.eqb_spec (event m) ev); [congruence | reflexivity]. }
  assert (Flag : forall f, In f (descr (event m)) -> fst f = file ->
                           once_flag (snd f) = once_flag m).
  { intros f F E. unfold descr in F. simpl in F. apply filter_In in F.
    assert (X : In f (List.filter (has_name file) (eventFiles dir))).
    { apply filter_In. split; [apply F |]. unfold has_name. rewrite E.
      apply String.eqb_refl. }
    rewrite One in X. destruct X as [<- | []]. reflexivity. }
  destruct (emitAll_runs file (event m) (once_flag m) es em descr D Others Flag)
    as (R & descr' & D' & N').
  rewrite Named, String.eqb_refl in R, N'. split.
  - intros O. rewrite O in R, N'. split; [lia |].
    intros Pos. apply (named_zero_not_subscribed _ descr' _ (file, m) D').
    cbn [fst]. rewrite N'.
    destruct (Nat.ltb_spec 0 (emissions_of (event m) es)); [reflexivity | lia].
  - intros O. rewrite O in R. lia.
Qed.

(** What [registerEvents] leaves in a new emitter, and what any sequence
    of emissions makes of an emitter of wrappers: an emitter of wrappers. *)
Lemma registerEvents_described dir :
  described (registerEvents dir ∅)
            (fun ev => ([] ++ List.filter (for_event ev) (eventFiles dir))%list).
Proof. apply (described_register ∅ (fun _ => []) (eventFiles dir)), described_empty. Qed.

Lemma emitAll_described es :
  forall em descr, described em descr ->
    exists descr', described (fst (emitAll em es)) descr'.
Proof.
  induction es as [| [ev args] es IH]; intros em descr D.
  - exists descr. exact D.
  - rewrite emitAll_cons. cbn [fst].
    destruct (emit_described em descr ev args D) as (em1 & E & D1).
    rewrite E. cbn [fst]. apply (IH _ _ D1).
Qed.

(** C9. In every emission, after any emissions that went before, every
    wrapper subscribed to the event is called, whatever the callbacks of the
    other subscribers do: [emit] throws nothing, and the error of a callback
    that throws or whose promise is rejected is logged. *)
Theorem failing_subscriber_is_isolated :
  forall (dir : list (string * EventModule)) (es : list (string * Args))
         (ev : string) (args : Args) (f : string * EventModule),
    let em := fst (emitAll (registerEvents dir ∅) es) in
    subscribed em ev f ->
    let out := snd (emit em ev args) in
    thrown out = None
    /\ In (Invoke (fst f)) (during out)
    /\ (forall e, callback (snd f) args = Throws e
                  \/ callback (snd f) args = ReturnsPromise (Rejected e) ->
                  In (LogError (event_error (fst f) e)) (during out ++ after out)%list)
    /\ forall g, subscribed em ev g -> In (Invoke (fst g)) (during out).
Proof.
  intros dir es ev args f em S out.
  assert (D : exists descr, described em descr).
  { apply (emitAll_described es _ _ (registerEvents_described dir)). }
  destruct D as (descr & D).
  destruct (emit_described em descr ev args D) as (em1 & E & _).
  subst out. rewrite E. cbn [snd thrown during after].
  assert (Called : forall g, subscribed em ev g ->
            incl (sync (run (subscription g) args))
                 (flat_map (fun f => sync (run (subscription f) args)) (descr ev))
            /\ incl (later (run (subscription g) args))
                    (flat_map (fun f => later (run (subscription f) args)) (descr ev))).
  { intros g G. unfold subscribed in G. rewrite D in G.
    apply in_map_iff in G. destruct G as (g' & Eg & G). rewrite <- Eg.
    split; intros x X; apply in_flat_map; exists g'; split; assumption. }
  assert (Invoked : forall g, subscribed em ev g ->
            In (Invoke (fst g))
               (flat_map (fun f => sync (run (subscription f) args)) (descr ev))).
  { intros g G. apply (proj1 (Called g G)). cbn [run subscription].
    destruct (eventCapture_invokes (fst g) (callback (snd g)) args) as (r & -> & _).
    left. reflexivity. }
  split; [reflexivity |]. split; [apply Invoked, S |]. split; [| exact Invoked].
  intros e Fail.
  pose proof (eventCapture_logs (fst f) (callback (snd f)) args e Fail) as Log.
  apply in_app_or in Log. apply in_or_app.
  destruct Log as [Log | Log]; [left | right]; apply (Called f S); exact Log.
Qed.

Lemma once_runs_once_repeating_runs_every_time_witness :
  let m := mkEvent "ready" true (fun _ => Throws "boom") in
  let em := registerEvents example_dir ∅ in
  (once_flag m = true ->
     runs "ready.js" (snd (emitAll em example_emissions))
     = Nat.min 1 (emissions_of (event m) example_emissions)
     /\ ((0 < emissions_of (event m) example_emissions)%nat ->
         ~ subscribed (fst (emitAll em example_emissions)) (event m) ("ready.js", m)))
  /\ (once_flag m = false ->
        runs "ready.js" (snd (emitAll em example_emissions))
        = emissions_of (event m) example_emissions).
Proof.
  intros m.
  apply (once_runs_once_repeating_runs_every_time example_dir example_emissions "ready.js" m).
  - apply (bool_decide_unpack _). vm_compute. exact I.
  - simpl. left. reflexivity.
Defined.

Lemma failing_subscriber_is_isolated_witness :
  let f := ("log.js", mkEvent "ready" false (fun _ => ReturnsPromise (Rejected "nope"))) in
  let em := fst (emitAll (registerEvents example_dir ∅) example_emissions) in
  let out := snd (emit em "ready" []) in
  thrown out = None
  /\ In (Invoke (fst f)) (during out)
  /\ (forall e, callback (snd f) [] = Throws e
                \/ callback (snd f) [] = ReturnsPromise (Rejected e) ->
                In (LogError (event_error (fst f) e)) (during out ++ after out)%list)
  /\ forall g, subscribed em "ready" g -> In (Invoke (fst g)) (during out).
Proof.
  intros f.
  apply (failing_subscriber_is_isolated example_dir example_emissions "ready" [] f).
  vm_compute. left. reflexivity.
Defined.

(** The first emission of [ready] in the example: the callback of
    [ready.js] throws, is logged, and [log.js] still runs; its rejection is
    logged afterwards. The second emission reaches [log.js] alone. *)
Example example_first_emission :
  snd (emit (registerEvents example_dir ∅) "ready" [])
  = mkEmission [ Invoke "ready.js"; LogError "Error in event ready.js callback: boom";
                 Invoke "log.js" ]
               [ LogError "Error in event log.js callback: nope" ]
               None.
Proof. vm_compute. reflexivity. Qed.

Example example_runs :
  map (fun file => runs file (snd (emitAll (registerEvents example_dir ∅) example_emissions)))
      ["ready.js"; "log.js"; "notes.txt"; "join.js"]
  = [1; 2; 0; 1]%nat.
Proof. vm_compute. reflexivity. Qed.

(** Without the wrapper the emitter does not isolate: a listener that
    throws takes [emit] with it and the next listener is not called. *)
Example unwrapped_listener_stops_emit :
  let raw := fun _ : Args => mkRun [Invoke "raw"] [] (Throws "boom") in
  let em := on (on ∅ "ready" raw) "ready" (eventCapture "log.js" (fun _ => Returns)) in
  snd (emit em "ready" []) = mkEmission [Invoke "raw"] [] (Some "boom").
Proof. vm_compute. reflexivity. Qed.

End EventsFacts.

(** * Further properties *)

(** ** The credential rotator *)

Section RotatorMore.
Import Rotator.

(** A credential a client holds is the one of the constructor, with both
    hashes empty, or a pair of digests. *)
Lemma reachable_hashes (t : Z) (h : AuthHash) :
  reachable t h ->
  (now h = "" /\ prev h = "")
  \/ (String.length (now h) = 64%nat /\ String.length (prev h) = 64%nat).
Proof.
  induction 1 as [t0 | t h env d1 d2 test r h' log R IH L1 L2 Call].
  - left. split; reflexivity.
  - unfold authToken in Call.
    destruct (expires h >? getTime d1); [inversion Call; subst; exact IH |].
    destruct env as [auth |]; [| inversion Call; subst; exact IH].
    destruct (truthy_string auth); [| inversion Call; subst; exact IH].
    inversion Call; subst. right. split; apply sha256_hex_length.
Qed.

(** It never outlives the latest clock reading by more than a minute. *)
Lemma reachable_lifetime (t : Z) (h : AuthHash) :
  reachable t h -> expires h <= t + 60000.
Proof.
  induction 1 as [t0 | t h env d1 d2 test r h' log R IH L1 L2 Call].
  - simpl. lia.
  - unfold authToken in Call.
    destruct (expires h >? getTime d1); [inversion Call; subst; lia |].
    destruct env as [auth |]; [| inversion Call; subst; lia].
    destruct (truthy_string auth); inversion Call; subst; simpl; lia.
Qed.

Lemma answer_true (h : AuthHash) (test : option string) :
  answer h test = RBool true ->
  exists tok, test = Some tok /\ tok <> "" /\ (tok = now h \/ tok = prev h).
Proof.
  unfold answer. destruct test as [tok |]; [| discriminate].
  destruct (truthy_string tok) eqn:T; [| discriminate].
  intros X. exists tok. split; [reflexivity |].
  split; [apply truthy_string_true, T |].
  apply _isValidHash_spec. inversion X. reflexivity.
Qed.

(** X1. Whatever the environment and the clock, a call that returns [true]
    was given a token of 64 characters that is one of the two stored
    hashes: the empty hashes of a new client match no token, and nothing
    shorter or longer than a digest is ever accepted. *)
Theorem accepted_token_is_a_digest :
  forall (t : Z) (h : AuthHash) (env : option string) (d1 d2 : Date)
         (test : option string) (h' : AuthHash) (log : list Effect),
    reachable t h ->
    authToken h env d1 d2 test = (RBool true, h', log) ->
    exists tok : string,
      test = Some tok /\ String.length tok = 64%nat /\ (tok = now h' \/ tok = prev h').
Proof.
  intros t h env d1 d2 test h' log R Call.
  assert (Path : (answer h test = RBool true /\ h' = h)
                 \/ (answer h' test = RBool true
                     /\ String.length (now h') = 64%nat
                     /\ String.length (prev h') = 64%nat)).
  { unfold authToken in Call.
    destruct (expires h >? getTime d1).
    - injection Call as A B _. left. split; [exact A | symmetry; exact B].
    - destruct env as [auth |]; [| discriminate Call].
      destruct (truthy_string auth); [| discriminate Call].
      injection Call as A B _. right. rewrite <- B. cbn [now prev].
      split; [exact A |]. split; apply sha256_hex_length. }
  assert (Ans : answer h' test = RBool true).
  { destruct Path as [[A ->] | [A _]]; exact A. }
  destruct (answer_true h' test Ans) as (tok & -> & Ne & Eq).
  exists tok. split; [reflexivity |]. split; [| exact Eq].
  destruct Path as [[_ ->] | (_ & A & B)].
  - destruct (reachable_hashes t h R) as [[A B] | [A B]].
    + destruct Eq as [-> | ->]; contradiction.
    + destruct Eq as [-> | ->]; assumption.
  - destruct Eq as [-> | ->]; assumption.
Qed.

Lemma accepted_token_is_a_digest_witness :
  exists tok : string,
    Some "28fbe1e8a8f962db20c5641dcda204978ed9af86aa9a3bf1ce472c998327a28e" = Some tok
    /\ String.length tok = 64%nat
    /\ (tok = "28fbe1e8a8f962db20c5641dcda204978ed9af86aa9a3bf1ce472c998327a28e"
        \/ tok = "bdc6e2bec62d7a5f5f6c22f7b7dc7c800b75c7e1008b1d122136b0d1e77305e3").
Proof.
  apply (accepted_token_is_a_digest
           0 (initial 0) (Some "s3cr3t") (utcDate 1704895500000) (utcDate 1704895500000)
           (Some "28fbe1e8a8f962db20c5641dcda204978ed9af86aa9a3bf1ce472c998327a28e")
           {| now := "28fbe1e8a8f962db20c5641dcda204978ed9af86aa9a3bf1ce472c998327a28e";
              prev := "bdc6e2bec62d7a5f5f6c22f7b7dc7c800b75c7e1008b1d122136b0d1e77305e3";
              expires := 1704895560000 |} []).
  - apply reach_new.
  - vm_compute. reflexivity.
Defined.

(** X2. Until the stored credential expires, a later call gives the same
    verdict on the same argument and leaves the credential stored, also
    when the secret has been changed or removed in the meantime. *)
Theorem verdict_is_stable_until_expiry :
  forall (h : AuthHash) (env : option string) (d1 d2 : Date) (test : option string)
         (r : AuthResult) (h' : AuthHash) (log : list Effect),
    authToken h env d1 d2 test = (r, h', log) ->
    forall (env' : option string) (d3 d4 : Date),
      getTime d1 <= getTime d3 -> getTime d3 < expires h' ->
      authToken h' env' d3 d4 test = (r, h', []).
Proof.
  intros h env d1 d2 test r h' log Call env' d3 d4 L W.
  rewrite (authToken_cached h' env' d3 d4 test) by lia.
  unfold authToken in Call.
  destruct (Z.gtb_spec (expires h) (getTime d1)) as [E | E].
  - injection Call as <- <- _. reflexivity.
  - destruct env as [auth |].
    + destruct (truthy_string auth).
      * injection Call as <- <- _. reflexivity.
      * injection Call as _ <- _. lia.
    + injection Call as _ <- _. lia.
Qed.

Lemma verdict_is_stable_until_expiry_witness :
  let h5 := {| now := "28fbe1e8a8f962db20c5641dcda204978ed9af86aa9a3bf1ce472c998327a28e";
               prev := "bdc6e2bec62d7a5f5f6c22f7b7dc7c800b75c7e1008b1d122136b0d1e77305e3";
               expires := 1704895560000 |} in
  authToken h5 None (utcDate 1704895559999) (utcDate 1704895560005) (Some (prev h5))
  = (RBool true, h5, []).
Proof.
  intros h5.
  apply (verdict_is_stable_until_expiry
           (initial 0) (Some "s3cr3t") (utcDate 1704895500000) (utcDate 1704895500000)
           (Some (prev h5)) (RBool true) h5 []).
  - vm_compute. reflexivity.
  - simpl. lia.
  - simpl. lia.
Defined.

(** X3. A stored credential expires at most 60 s after the latest clock
    reading, so a call made 60 s or more after that reading, with the secret
    there, never answers from the cache: it stores the credential of its
    own clock reading and answers from that one. *)
Theorem credential_is_replaced_after_a_minute :
  forall (t : Z) (h : AuthHash),
    reachable t h ->
    expires h <= t + 60000
    /\ forall (auth : string) (d1 d2 : Date) (test : option string),
         t + 60000 <= getTime d1 -> truthy_string auth = true ->
         let h' := {| now := Sha256.sha256_hex (toHash auth d2);
                      prev := Sha256.sha256_hex (previousMinute auth d2);
                      expires := getTime d2 + 60000 |} in
         authToken h (Some auth) d1 d2 test = (answer h' test, h', []).
Proof.
  intros t h R. pose proof (reachable_lifetime t h R) as B. split; [exact B |].
  intros auth d1 d2 test L A. apply authToken_recomputed; [lia | exact A].
Qed.

Lemma credential_is_replaced_after_a_minute_witness :
  let h5 := {| now := "28fbe1e8a8f962db20c5641dcda204978ed9af86aa9a3bf1ce472c998327a28e";
               prev := "bdc6e2bec62d7a5f5f6c22f7b7dc7c800b75c7e1008b1d122136b0d1e77305e3";
               expires := 1704895560000 |} in
  expires h5 <= 1704895500000 + 60000
  /\ forall (auth : string) (d1 d2 : Date) (test : option string),
       1704895500000 + 60000 <= getTime d1 -> truthy_string auth = true ->
       let h' := {| now := Sha256.sha256_hex (toHash auth d2);
                    prev := Sha256.sha256_hex (previousMinute auth d2);
                    expires := getTime d2 + 60000 |} in
       authToken h5 (Some auth) d1 d2 test = (answer h' test, h', []).
Proof.
  intros h5.
  apply (credential_is_replaced_after_a_minute 1704895500000 h5).
  apply (reach_call 0 (initial 0) (Some "s3cr3t") (utcDate 1704895500000)
                    (utcDate 1704895500000) None (RHash h5) h5 []).
  - apply reach_new.
  - simpl. lia.
  - simpl. lia.
  - vm_compute. reflexivity.
Defined.

(** X4. Two clients with the same secret agree across a minute boundary
    inside an hour: the hash one of them stores as [now] at minute [m] of an
    hour is the hash the other stores as [prev] when it recomputes at minute
    [m + 1] of that hour, and the token is accepted there. *)
Theorem next_minute_accepts_previous_token :
  forall (auth : string) (h1 h2 : AuthHash) (d1 d2 d3 d4 : Date),
    truthy_string auth = true ->
    expires h1 <= getTime d1 -> expires h2 <= getTime d3 ->
    getDate d4 = getDate d2 -> getHours d4 = getHours d2 ->
    0 <= getMinutes d2 <= 58 -> getMinutes d4 = getMinutes d2 + 1 ->
    let issued := snd (fst (authToken h1 (Some auth) d1 d2 None)) in
    let checked := authToken h2 (Some auth) d3 d4 (Some (now issued)) in
    fst (fst checked) = RBool true /\ prev (snd (fst checked)) = now issued.
Proof.
  intros auth h1 h2 d1 d2 d3 d4 A E1 E3 Dd Dh Dm Dm' issued checked.
  subst issued checked.
  rewrite (authToken_recomputed h1 auth d1 d2 None E1 A).
  rewrite (authToken_recomputed h2 auth d3 d4 _ E3 A).
  cbn [fst snd now prev].
  assert (P : previousMinute auth d4 = toHash auth d2).
  { unfold previousMinute, toHash, js_rem. rewrite Dd, Dh, Dm'.
    replace (getMinutes d2 + 1 - 1) with (getMinutes d2) by lia.
    rewrite Z.rem_small by lia. reflexivity. }
  rewrite P. split; [| reflexivity].
  rewrite answer_token by apply sha256_hex_nonempty.
  unfold _isValidHash. cbn [now prev].
  rewrite (String.eqb_refl (Sha256.sha256_hex (toHash auth d2))), orb_true_r.
  reflexivity.
Qed.

Lemma next_minute_accepts_previous_token_witness :
  let issued := snd (fst (authToken (initial 0) (Some "s3cr3t") (utcDate 1704895500000)
                                    (utcDate 1704895500000) None)) in
  let checked := authToken (initial 7) (Some "s3cr3t") (utcDate 1704895565000)
                           (utcDate 1704895565000) (Some (now issued)) in
  fst (fst checked) = RBool true /\ prev (snd (fst checked)) = now issued.
Proof.
  apply (next_minute_accepts_previous_token
           "s3cr3t" (initial 0) (initial 7) (utcDate 1704895500000) (utcDate 1704895500000)
           (utcDate 1704895565000) (utcDate 1704895565000)).
  - reflexivity.
  - simpl. lia.
  - simpl. lia.
  - reflexivity.
  - reflexivity.
  - change (getMinutes (utcDate 1704895500000)) with 5. lia.
  - reflexivity.
Defined.

(** X5. The message has no separators, so different days and hours share
    it: on day [a] at hour [10 b + c] and on day [10 a + b] at hour [c], the
    same minute gives the same two messages (day 1 at 11:05 and day 11 at
    01:05, for one), hence the same two hashes, for every secret. *)
Theorem toHash_is_ambiguous :
  forall (auth : string) (a b c m t t' : Z),
    1 <= a <= 3 -> 1 <= b <= 2 -> 0 <= c <= 9 ->
    10 * a + b <= 31 -> 10 * b + c <= 23 ->
    toHash auth (mkDate t a (10 * b + c) m) = toHash auth (mkDate t' (10 * a + b) c m)
    /\ previousMinute auth (mkDate t a (10 * b + c) m)
       = previousMinute auth (mkDate t' (10 * a + b) c m).
Proof.
  intros auth a b c m t t' Ha Hb Hc _ _.
  assert (A : a = 1 \/ a = 2 \/ a = 3) by lia.
  assert (B : b = 1 \/ b = 2) by lia.
  assert (C : c = 0 \/ c = 1 \/ c = 2 \/ c = 3 \/ c = 4 \/ c = 5 \/ c = 6 \/ c = 7
              \/ c = 8 \/ c = 9) by lia.
  unfold toHash, previousMinute. cbn [getDate getHours getMinutes].
  destruct A as [-> | [-> | ->]]; destruct B as [-> | ->];
    repeat (destruct C as [-> | C]); subst; split; reflexivity.
Qed.

Lemma toHash_is_ambiguous_witness :
  toHash "s3cr3t" (mkDate 0 1 (10 * 1 + 1) 5) = toHash "s3cr3t" (mkDate 7 (10 * 1 + 1) 1 5)
  /\ previousMinute "s3cr3t" (mkDate 0 1 (10 * 1 + 1) 5)
     = previousMinute "s3cr3t" (mkDate 7 (10 * 1 + 1) 1 5).
Proof.
  apply (toHash_is_ambiguous "s3cr3t" 1 1 1 5 0 7); lia.
Defined.

Lemma append_cancel_l (a x y : string) : a ++ x = a ++ y -> x = y.
Proof.
  induction a as [| ch a IH]; simpl; intros E; [exact E |].
  injection E as E. apply IH, E.
Qed.

Lemma has_dash_app (a b : string) : has_dash (a ++ b) = has_dash a || has_dash b.
Proof.
  unfold has_dash. induction a as [| ch a IH]; simpl; [reflexivity |].
  rewrite IH. apply orb_assoc.
Qed.

Lemma digits_no_dash (u : Decimal.uint) : has_dash (NilEmpty.string_of_uint u) = false.
Proof. induction u; simpl; try reflexivity; exact IHu. Qed.

(** The decimal form of a number that is not negative has no sign. *)
Lemma js_string_of_int_no_dash (z : Z) : 0 <= z -> has_dash (js_string_of_int z) = false.
Proof.
  intros N. destruct z as [| p | p]; [reflexivity | | lia].
  unfold js_string_of_int. simpl.
  pose proof (digits_no_dash (Pos.to_uint p)) as D.
  unfold NilZero.string_of_uint. destruct (Pos.to_uint p); exact D.
Qed.

(** X6. At minute 0 the second message is the current message of no clock
    reading, for the same secret: it has a minus sign after the secret and
    the messages of the clock have none. So at the start of every hour the
    [prev] hash is the digest of a message no client ever hashes as [now]. *)
Theorem minute_zero_previous_message_is_never_current :
  forall (auth : string) (t day hour : Z) (d : Date),
    0 <= getDate d -> 0 <= getHours d -> 0 <= getMinutes d ->
    previousMinute auth (mkDate t day hour 0) <> toHash auth d.
Proof.
  intros auth t day hour d Dd Dh Dm E.
  unfold previousMinute, toHash in E. cbn [getDate getHours getMinutes] in E.
  apply append_cancel_l in E.
  apply (f_equal has_dash) in E.
  rewrite !has_dash_app in E.
  rewrite (js_string_of_int_no_dash _ Dd), (js_string_of_int_no_dash _ Dh),
    (js_string_of_int_no_dash _ Dm) in E.
  change (has_dash (js_string_of_int (js_rem (0 - 1) 60))) with true in E.
  rewrite !orb_true_r in E. discriminate E.
Qed.

Lemma minute_zero_previous_message_is_never_current_witness :
  previousMinute "s3cr3t" (mkDate 1704895200000 10 14 0)
  <> toHash "s3cr3t" (utcDate 1704895140000).
Proof.
  apply (minute_zero_previous_message_is_never_current
           "s3cr3t" 1704895200000 10 14 (utcDate 1704895140000));
    vm_compute; discriminate.
Defined.

End RotatorMore.

(** ** The command dispatcher *)

Section DispatcherMore.
Import Dispatcher.

Lemma get_undefined (cs : gmap string extendedCommand) (name : string) :
  get cs name = Undefined <-> cs !! name = None /\ name ∉ object_prototype.
Proof.
  unfold get. destruct (cs !! name) as [c |].
  - split; [discriminate | intros [X _]; discriminate X].
  - destruct (bool_decide_reflect (name ∈ object_prototype)) as [I | N].
    + split; [discriminate | intros [_ X]; contradiction].
    + split; [intros _; split; [reflexivity | exact N] | reflexivity].
Qed.

Lemma dropped_plain (p : Settled) :
  List.filter is_call (dropped p) = [] /\ List.filter is_notification (dropped p) = [].
Proof. destruct p; split; reflexivity. Qed.

Lemma on_catch_calls (e : string) (i : Interaction) :
  List.filter is_call (on_catch e i) = [].
Proof.
  unfold on_catch. destruct (replied i); simpl; apply dropped_plain.
Qed.

Lemma on_catch_notifications (e : string) (i : Interaction) :
  List.filter is_notification (on_catch e i)
  = [if replied i then EditReply failure_message else FollowUp failure_message true].
Proof.
  unfold on_catch. destruct (replied i); simpl; rewrite (proj2 (dropped_plain _));
    reflexivity.
Qed.

(** X7. A dispatch has no effect at all exactly when the interaction is not
    a command or its name is neither a key of the table nor a name the
    table inherits. *)
Theorem commandHandler_silent_iff :
  forall (cs : gmap string extendedCommand) (i : Interaction),
    fst (commandHandler cs i) = []
    <-> isCommand i = false
        \/ (cs !! commandName i = None /\ commandName i ∉ object_prototype).
Proof.
  intros cs i. rewrite <- get_undefined. unfold commandHandler.
  destruct (isCommand i); simpl.
  - destruct (get cs (commandName i)) as [c | |].
    + split; [| intros [X | X]; discriminate X].
      destruct (callback c i); discriminate.
    + split; [discriminate | intros [X | X]; discriminate X].
    + split; [right; reflexivity | reflexivity].
  - split; [left; reflexivity | reflexivity].
Qed.

(** X8. A dispatch calls a callback only for a command whose name is a key
    of the table, and then it calls the callback of that key once, whatever
    the callback does; for an inherited name nothing is called. *)
Theorem commandHandler_calls :
  forall (cs : gmap string extendedCommand) (i : Interaction),
    List.filter is_call (fst (commandHandler cs i))
    = if isCommand i
      then match cs !! commandName i with
           | Some _ => [Invoke (commandName i)]
           | None => []
           end
      else [].
Proof.
  intros cs i. unfold commandHandler, get.
  destruct (isCommand i); cbn [negb fst]; [| reflexivity].
  destruct (cs !! commandName i) as [c |].
  - destruct (callback c i) as [e | | p]; cbn [fst List.filter is_call].
    + rewrite on_catch_calls. reflexivity.
    + reflexivity.
    + rewrite (proj1 (dropped_plain p)). reflexivity.
  - destruct (bool_decide (commandName i ∈ object_prototype)); cbn [fst];
      [apply on_catch_calls | reflexivity].
Qed.

(** X9. A dispatch never notifies the user twice. When the callback throws
    before it returns, the error is logged with its text and the user is
    notified once: by an edit of the reply when the interaction was replied
    to, by a follow-up otherwise; and the promise of the dispatch is
    fulfilled also when that notification fails. *)
Theorem commandHandler_notifies_once :
  forall (cs : gmap string extendedCommand) (i : Interaction),
    (List.length (List.filter is_notification (fst (commandHandler cs i))) <= 1)%nat
    /\ forall (c : extendedCommand) (e : string),
         isCommand i = true -> cs !! commandName i = Some c -> callback c i = Throws e ->
         List.filter is_notification (fst (commandHandler cs i))
         = [if replied i then EditReply failure_message else FollowUp failure_message true]
         /\ In (LogError ("Error in command callback: " ++ e)) (fst (commandHandler cs i))
         /\ snd (commandHandler cs i) = Fulfilled.
Proof.
  intros cs i. split.
  - unfold commandHandler. destruct (negb (isCommand i)); [simpl; lia |].
    destruct (get cs (commandName i)) as [c | |]; cbn [fst]; [| | simpl; lia].
    + destruct (callback c i) as [e | | p]; cbn [fst List.filter is_notification].
      * rewrite (on_catch_notifications e i). simpl. lia.
      * simpl. lia.
      * rewrite (proj2 (dropped_plain p)). simpl. lia.
    + rewrite (on_catch_notifications not_a_function i). simpl. lia.
  - intros c e C L T. rewrite (commandHandler_throwing cs i c e C L T).
    cbn [fst snd]. split; [| split; [| reflexivity]].
    + cbn [List.filter is_notification]. apply (on_catch_notifications e i).
    + right. left. reflexivity.
Qed.

Lemma commandHandler_notifies_once_witness :
  let cs : gmap string extendedCommand :=
    {[ "ping" := mkCommand (fun _ => Throws "Error: boom") ]} in
  let i := mkInteraction true "ping" true None Fulfilled (Rejected "Unknown interaction")
                         Fulfilled in
  List.filter is_notification (fst (commandHandler cs i)) = [EditReply failure_message]
  /\ In (LogError ("Error in command callback: " ++ "Error: boom")) (fst (commandHandler cs i))
  /\ snd (commandHandler cs i) = Fulfilled.
Proof.
  intros cs i.
  apply (proj2 (commandHandler_notifies_once cs i)
               (mkCommand (fun _ => Throws "Error: boom")) "Error: boom").
  - reflexivity.
  - vm_compute. reflexivity.
  - reflexivity.
Defined.

End DispatcherMore.

(** ** Registration of the commands *)

Section RegistrationMore.
Import Registration.

Lemma registerCommands_skipped argv entries cached create :
  update_requested argv = false ->
  registerCommands argv entries cached create = ([Info "Skipping command registration"], []).
Proof.
  unfold update_requested, registerCommands. intros U.
  apply orb_false_iff in U. destruct U as [-> ->]. reflexivity.
Qed.

Lemma registerCommands_requested argv entries cached create :
  update_requested argv = true ->
  registerCommands argv entries cached create
  = ((Info "Registering commands"
        :: concat (map fst (map (register_command cached create) entries))
        ++ [Success "Commands registered"])%list,
     concat (map snd (map (register_command cached create) entries))).
Proof.
  unfold update_requested, registerCommands. intros U.
  destruct (includes "--update-commands" argv), (includes "-u" argv);
    try reflexivity; discriminate U.
Qed.

Lemma in_steps {A B C : Type} (f : A -> B) (g : B -> list C) (l : list A) (x : C) :
  In x (concat (map g (map f l))) <-> exists a, In a l /\ In x (g (f a)).
Proof.
  rewrite map_map, <- flat_map_concat_map. apply in_flat_map.
Qed.

(** X10. A command is created on the development server exactly when an
    update was requested on the command line ([--update-commands] or [-u]),
    the server is in the guild cache, and the command is the valid built
    form of a key of the table. *)
Theorem registerCommands_creates :
  forall (argv : list string) (entries : list (string * Built)) (cached : bool)
         (create : string -> Settled) (j : string),
    In (Create j) (fst (registerCommands argv entries cached create))
    <-> update_requested argv = true /\ cached = true
        /\ exists name, In (name, Json j) entries.
Proof.
  intros argv entries cached create j.
  destruct (update_requested argv) eqn:U.
  - rewrite (registerCommands_requested _ _ _ _ U). cbn [fst].
    split.
    + intros [X | X]; [discriminate X |].
      apply in_app_or in X. destruct X as [X | [X | []]]; [| discriminate X].
      apply in_steps in X. destruct X as ([name b] & I & X).
      unfold register_command in X. cbn [fst snd] in X.
      destruct b as [j' | e]; [| destruct X].
      destruct cached; [| destruct X].
      split; [reflexivity |]. split; [reflexivity |]. exists name.
      destruct (create j'); destruct X as [X | []]; injection X as <-; exact I.
    + intros (_ & -> & name & I). right. apply in_or_app. left.
      apply in_steps. exists (name, Json j). split; [exact I |].
      unfold register_command. cbn [fst snd]. destruct (create j); left; reflexivity.
  - rewrite (registerCommands_skipped _ _ _ _ U). cbn [fst]. split.
    + intros [X | []]. discriminate X.
    + intros (X & _). discriminate X.
Qed.

(** X11. When an update was requested, [Commands registered] is logged
    before [registerCommands] returns, whatever becomes of the creations;
    and afterwards a key is logged as registered exactly when its built
    form is valid and either its creation succeeded or the development
    server was not in the cache, in which case nothing was created. *)
Theorem registerCommands_reports :
  forall (argv : list string) (entries : list (string * Built)) (cached : bool)
         (create : string -> Settled),
    (In (Success "Commands registered") (fst (registerCommands argv entries cached create))
     <-> update_requested argv = true)
    /\ forall name : string,
         In (Info ("Registered command " ++ name))
            (snd (registerCommands argv entries cached create))
         <-> update_requested argv = true
             /\ exists j, In (name, Json j) entries
                          /\ (cached = false \/ create j = Fulfilled).
Proof.
  intros argv entries cached create.
  destruct (update_requested argv) eqn:U.
  - rewrite (registerCommands_requested _ _ _ _ U). cbn [fst snd]. split.
    + split; [reflexivity |]. intros _. right. apply in_or_app. right. left. reflexivity.
    + intros name. rewrite in_steps. split.
      * intros ([name' b] & I & X). split; [reflexivity |].
        unfold register_command in X. cbn [fst snd] in X.
        destruct b as [j | e]; [| destruct X as [X | []]; discriminate X].
        destruct cached.
        -- destruct (create j) eqn:Cr; destruct X as [X | []]; [| discriminate X].
           injection X as X. apply append_cancel_l in X. subst name'.
           exists j. split; [exact I | right; exact Cr].
        -- destruct X as [X | []]. injection X as X. apply append_cancel_l in X.
           subst name'. exists j. split; [exact I | left; reflexivity].
      * intros (_ & j & I & Ok). exists (name, Json j). split; [exact I |].
        unfold register_command. cbn [fst snd].
        destruct cached; [| left; reflexivity].
        destruct Ok as [X | ->]; [discriminate X | left; reflexivity].
  - rewrite (registerCommands_skipped _ _ _ _ U). cbn [fst snd]. split.
    + split; [intros [X | []]; discriminate X | discriminate].
    + intros name. split; [intros [] | intros (X & _); discriminate X].
Qed.

End RegistrationMore.

(** ** Lifecycle events *)

Section EventsMore.
Import Events Subscriptions.

Lemma substring_all (s : string) : substring 0 (String.length s) s = s.
Proof. induction s as [| c s IH]; simpl; [reflexivity | rewrite IH; reflexivity]. Qed.

Lemma substring_skip (p s : string) (k : nat) :
  substring (String.length p) k (p ++ s) = substring 0 k s.
Proof. induction p as [| c p IH]; simpl; [reflexivity | exact IH]. Qed.

Lemma substring_split (s : string) (k : nat) :
  (k <= String.length s)%nat ->
  s = substring 0 k s ++ substring k (String.length s - k) s.
Proof.
  revert k. induction s as [| c s IH]; intros k L.
  - simpl in L. assert (k = 0%nat) by lia. subst k. reflexivity.
  - destruct k as [| k].
    + simpl. rewrite substring_all. reflexivity.
    + simpl in L.
      change (String c s
              = String c (substring 0 k s ++ substring k (String.length s - k) s)).
      f_equal. apply IH. lia.
Qed.

Lemma append_length (a b : string) :
  String.length (a ++ b) = (String.length a + String.length b)%nat.
Proof. induction a as [| c a IH]; simpl; [reflexivity | rewrite IH; reflexivity]. Qed.

(** [endsWith] holds of the strings that are something followed by the
    suffix. *)
Lemma endsWith_spec (suffix file : string) :
  endsWith suffix file = true <-> exists p, file = p ++ suffix.
Proof.
  unfold endsWith. rewrite andb_true_iff, Nat.leb_le, String.eqb_eq. split.
  - intros [L E].
    exists (substring 0 (String.length file - String.length suffix) file).
    rewrite <- E at 2.
    rewrite (substring_split file (String.length file - String.length suffix)) at 1 by lia.
    do 2 f_equal. lia.
  - intros [p ->]. rewrite append_length. split; [lia |].
    replace (String.length p + String.length suffix - String.length suffix)%nat
      with (String.length p) by lia.
    rewrite substring_skip. apply substring_all.
Qed.

Lemma named_zero (file : string) (fs : list (string * EventModule)) :
  (forall f, In f fs -> fst f <> file) -> named file fs = 0%nat.
Proof.
  unfold named. induction fs as [| f fs IH]; intros N; [reflexivity |].
  simpl. unfold has_name at 1.
  destruct (String.eqb_spec (fst f) file) as [E | _].
  - destruct (N f (or_introl eq_refl) E).
  - apply IH. intros g G. apply N. right. exact G.
Qed.

(** X12. A directory entry whose name is not something followed by [.js]
    is never subscribed: whatever is emitted, nothing is ever called under
    its name. *)
Theorem other_files_are_never_subscribed :
  forall (dir : list (string * EventModule)) (es : list (string * Args)) (file : string),
    (forall p, file <> p ++ ".js") ->
    runs file (snd (emitAll (registerEvents dir ∅) es)) = 0%nat
    /\ forall ev m, ~ subscribed (registerEvents dir ∅) ev (file, m).
Proof.
  intros dir es file N.
  pose (descr := fun ev => ([] ++ List.filter (for_event ev) (eventFiles dir))%list).
  assert (Zero : forall ev, named file (descr ev) = 0%nat).
  { intros ev. apply named_zero. intros f F E. unfold descr in F. simpl in F.
    apply filter_In in F. destruct F as [F _].
    unfold eventFiles in F. apply filter_In in F. destruct F as [_ F].
    apply endsWith_spec in F. destruct F as [p F]. apply (N p). congruence. }
  split.
  - destruct (emitAll_runs file "" false es _ descr (registerEvents_described dir))
      as [R _].
    + intros ev _. apply Zero.
    + intros f F E. exfalso.
      assert (X : In f (List.filter (has_name file) (descr ""))).
      { apply filter_In. split; [exact F |]. unfold has_name. rewrite E.
        apply String.eqb_refl. }
      pose proof (Zero "") as Z0. unfold named in Z0.
      destruct (List.filter (has_name file) (descr "")); [destruct X | discriminate Z0].
    + rewrite R, Zero. lia.
  - intros ev m. apply (named_zero_not_subscribed _ descr ev (file, m)).
    + apply registerEvents_described.
    + apply Zero.
Qed.

Lemma other_files_are_never_subscribed_witness :
  runs "notes.txt" (snd (emitAll (registerEvents example_dir ∅) example_emissions)) = 0%nat
  /\ forall ev m, ~ subscribed (registerEvents example_dir ∅) ev ("notes.txt", m).
Proof.
  apply (other_files_are_never_subscribed example_dir example_emissions "notes.txt").
  intros p E.
  assert (X : endsWith ".js" "notes.txt" = true) by (apply endsWith_spec; exists p; exact E).
  discriminate X.
Defined.












Example example_reached :
  map (fun es => map fst (reached example_dir es "ready"))
      [ []; [("guildMemberAdd", [])]; example_emissions ]
  = [ ["ready.js"; "log.js"]; ["ready.js"; "log.js"]; ["log.js"] ].
Proof. vm_compute. reflexivity. Qed.

End EventsMore.

(** ** The summary command *)

Section SummaryMore.
Import Dispatcher Summary.

Lemma insert_desc_In (r x : Row) (rs : list Row) :
  In x (insert_desc r rs) <-> x = r \/ In x rs.
Proof.
  induction rs as [| y rs IH]; simpl.
  - split; intros [E | []]; left; congruence.
  - destruct (date y <=? date r)%Z; simpl.
    + split; intros [E | E]; auto.
    + rewrite IH. split; intros [E | [E | E]]; auto.
Qed.

Lemma insert_desc_newest_first (r : Row) (rs : list Row) :
  newest_first rs -> newest_first (insert_desc r rs).
Proof.
  induction rs as [| y rs IH]; simpl; intros S.
  - split; [constructor | exact I].
  - destruct S as [F S]. destruct (Z.leb_spec (date y) (date r)) as [L | L]; simpl.
    + split; [| split; assumption]. constructor; [exact L |].
      eapply Forall_impl; [exact F |]. simpl. intros a A. lia.
    + split; [| apply IH, S]. apply Forall_forall. intros x X.
      apply list_elem_of_In, insert_desc_In in X. destruct X as [-> | X]; [lia |].
      rewrite Forall_forall in F. apply F. apply list_elem_of_In, X.
Qed.

Lemma order_desc_In (x : Row) (rs : list Row) : In x (order_desc rs) <-> In x rs.
Proof.
  induction rs as [| r rs IH]; simpl; [reflexivity |].
  rewrite insert_desc_In, IH. split; intros [E | E]; auto.
Qed.

Lemma order_desc_newest_first (rs : list Row) : newest_first (order_desc rs).
Proof.
  induction rs as [| r rs IH]; simpl; [exact I | apply insert_desc_newest_first, IH].
Qed.

Lemma filter_insert_desc_length (p : Row -> bool) (r : Row) (rs : list Row) :
  List.length (List.filter p (insert_desc r rs)) = List.length (List.filter p (r :: rs)).
Proof.
  induction rs as [| y rs IH]; [reflexivity |]. simpl.
  destruct (date y <=? date r)%Z; [reflexivity |].
  simpl in IH |- *. destruct (p y), (p r); simpl in IH |- *; lia.
Qed.

Lemma filter_order_desc_length (p : Row -> bool) (rs : list Row) :
  List.length (List.filter p (order_desc rs)) = List.length (List.filter p rs).
Proof.
  induction rs as [| r rs IH]; [reflexivity |].
  simpl order_desc. rewrite filter_insert_desc_length. simpl.
  destruct (p r); simpl; rewrite IH; reflexivity.
Qed.

(** In a list ordered newest first the rows of today come first. *)
Lemma newest_first_today_first (start : Z) (rs : list Row) :
  newest_first rs ->
  rs = (List.filter (today start) rs ++ List.filter (before_today start) rs)%list.
Proof.
  induction rs as [| r rs IH]; [reflexivity |]. intros [F S].
  simpl. unfold before_today at 1. destruct (today start r) eqn:T; simpl.
  - f_equal. apply IH, S.
  - assert (Old : forall x, In x rs -> today start x = false).
    { intros x X. rewrite Forall_forall in F. apply list_elem_of_In in X.
      specialize (F x X). simpl in F. unfold today in *.
      destruct (Z.gtb_spec (date r) start); [discriminate T |].
      destruct (Z.gtb_spec (date x) start); [lia | reflexivity]. }
    assert (E1 : List.filter (today start) rs = []).
    { clear -Old. induction rs as [| x rs IH]; [reflexivity |]. simpl.
      rewrite (Old x (or_introl eq_refl)). apply IH. intros y Y. apply Old. right. exact Y. }
    assert (E2 : List.filter (before_today start) rs = rs).
    { clear -Old. induction rs as [| x rs IH]; [reflexivity |]. simpl.
      unfold before_today at 1. rewrite (Old x (or_introl eq_refl)). simpl. f_equal.
      apply IH. intros y Y. apply Old. right. exact Y. }
    rewrite E1, E2. reflexivity.
Qed.

Lemma newest_first_filter (p : Row -> bool) (rs : list Row) :
  newest_first rs -> newest_first (List.filter p rs).
Proof.
  induction rs as [| r rs IH]; [intros _; exact I |]. intros [F S]. simpl.
  destruct (p r); [| apply IH, S]. split; [| apply IH, S].
  apply Forall_forall. intros x X. apply list_elem_of_In, filter_In in X.
  rewrite Forall_forall in F. apply F, list_elem_of_In, (proj1 X).
Qed.

Lemma newest_first_head (r : Row) (rs : list Row) :
  newest_first (r :: rs) -> forall x, In x (r :: rs) -> date x <= date r.
Proof.
  intros [F _] x [<- | X]; [lia |].
  rewrite Forall_forall in F. apply F, list_elem_of_In, X.
Qed.

Lemma last_nonempty {A : Type} (l : list A) (y d d' : A) :
  List.last (y :: l) d = List.last (y :: l) d'.
Proof.
  revert y. induction l as [| z l IH]; intros y; [reflexivity |].
  change (List.last (z :: l) d = List.last (z :: l) d'). apply IH.
Qed.

Lemma last_of_cons {A : Type} (x d : A) (l : list A) : List.last l x = List.last (x :: l) d.
Proof.
  destruct l as [| y l]; [reflexivity |].
  change (List.last (y :: l) x = List.last (y :: l) d). apply last_nonempty.
Qed.

Lemma last_of_map {A B : Type} (f : A -> B) (l : list A) (d : A) :
  List.last (map f l) (f d) = f (List.last l d).
Proof.
  induction l as [| a l IH]; [reflexivity |].
  destruct l as [| b l]; [reflexivity |].
  change (List.last (map f (b :: l)) (f d) = f (List.last (b :: l) d)). exact IH.
Qed.

(** The reply for the rows a select yields. *)
Lemma summary_reply_rows db i g n (first : Row) (rest : list Row) :
  guild i = Some g -> count_today db g = Rows n ->
  select_recent db g (n + 1) = Rows (map count (first :: rest)) ->
  summary_reply db i
  = Some (description (count first) (count (List.last rest first))).
Proof.
  intros G C S. unfold summary_reply. rewrite G, C, S. cbn [map].
  rewrite (last_of_map count rest first). reflexivity.
Qed.

(** What the two queries of [summary] yield on a table: the number of
    today's rows of the guild, and those rows, newest first, followed by the
    newest row from before today when there is one. *)
Lemma table_store_queries (start : Z) (table : list Row) (g : string) :
  let sorted := order_desc (of_guild g table) in
  let n := Z.of_nat (List.length (List.filter (today start) sorted)) in
  count_today (table_store start table) g = Rows n
  /\ select_recent (table_store start table) g (n + 1)
     = Rows (map count (List.filter (today start) sorted
                        ++ firstn 1 (List.filter (before_today start) sorted))%list).
Proof.
  intros sorted n. subst n. split.
  - simpl. subst sorted. rewrite filter_order_desc_length. reflexivity.
  - simpl. fold sorted. do 2 f_equal.
    replace (Z.to_nat (Z.of_nat (List.length (List.filter (today start) sorted)) + 1))
      with (List.length (List.filter (today start) sorted) + 1)%nat by lia.
    transitivity
      (firstn (List.length (List.filter (today start) sorted) + 1)
              (List.filter (today start) sorted
               ++ List.filter (before_today start) sorted)%list).
    + f_equal. apply newest_first_today_first, order_desc_newest_first.
    + apply firstn_app_2.
Qed.

Lemma description_same (c : Z) :
  description c c
  = "Today, the server has gained 0 members. (" ++ js_string_of_int c ++ " -> "
    ++ js_string_of_int c ++ ")".
Proof.
  unfold description. rewrite Z.sub_diag.
  destruct (Z.geb_spec c c); [reflexivity | lia].
Qed.

Lemma description_lost (s e : Z) :
  e < s ->
  description s e
  = "Today, the server has lost " ++ js_string_of_int (s - e) ++ " members. ("
    ++ js_string_of_int s ++ " -> " ++ js_string_of_int e ++ ")".
Proof.
  intros L. unfold description.
  destruct (Z.geb_spec e s); [lia |].
  replace (Z.abs (e - s)) with (s - e) by lia. reflexivity.
Qed.

(** X15. On a guild that has a record from before today, the summary takes
    as its start the count of the newest record of the guild and as its end
    the count of the newest record from before today. So it says [lost]
    when the newest count is above the one from before today. *)
Theorem summary_compares_newest_with_last_before_today :
  forall (table : list Row) (start : Z) (i : Interaction) (g : string) (r0 : Row),
    guild i = Some g -> In r0 (of_guild g table) -> date r0 <= start ->
    exists newest old : Row,
      In newest (of_guild g table) /\ In old (of_guild g table)
      /\ (forall r, In r (of_guild g table) -> date r <= date newest)
      /\ date old <= start
      /\ (forall r, In r (of_guild g table) -> date r <= start -> date r <= date old)
      /\ summary_reply (table_store start table) i
         = Some (description (count newest) (count old))
      /\ (count old < count newest ->
          summary_reply (table_store start table) i
          = Some ("Today, the server has lost "
                  ++ js_string_of_int (count newest - count old) ++ " members. ("
                  ++ js_string_of_int (count newest) ++ " -> "
                  ++ js_string_of_int (count old) ++ ")")).
Proof.
  intros table start i g r0 G R0 D0.
  destruct (table_store_queries start table g) as [Q1 Q2].
  set (rs := of_guild g table) in *.
  set (sorted := order_desc rs) in *.
  pose proof (order_desc_newest_first rs) as Srt. fold sorted in Srt.
  pose proof (newest_first_today_first start sorted Srt) as Split.
  set (T := List.filter (today start) sorted) in *.
  set (O := List.filter (before_today start) sorted) in *.
  assert (InO : forall r, In r rs -> date r <= start -> In r O).
  { intros r R D. apply filter_In. split; [apply order_desc_In, R |].
    unfold before_today, today. destruct (Z.gtb_spec (date r) start); [lia | reflexivity]. }
  assert (SO : newest_first O) by (apply newest_first_filter, Srt).
  destruct O as [| old O'] eqn:EO; [destruct (InO r0 R0 D0) |].
  assert (Old : In old rs /\ date old <= start).
  { assert (X : In old (List.filter (before_today start) sorted)).
    { fold O. rewrite EO. left. reflexivity. }
    apply filter_In in X. destruct X as [X B]. split; [apply order_desc_In, X |].
    unfold before_today, today in B. destruct (Z.gtb_spec (date old) start);
      [discriminate B | assumption]. }
  assert (Reply : exists newest, In newest rs
            /\ (forall r, In r rs -> date r <= date newest)
            /\ summary_reply (table_store start table) i
               = Some (description (count newest) (count old))).
  { cbn [firstn] in Q2. destruct T as [| t T'] eqn:ET.
    - exists old. split; [apply Old |]. split.
      + intros r R. apply (newest_first_head old O' SO).
        assert (X : In r sorted) by (apply order_desc_In, R).
        rewrite Split in X. exact X.
      + apply (summary_reply_rows _ i g _ old [] G Q1 Q2).
    - exists t. split; [| split].
      + apply order_desc_In. fold sorted. rewrite Split. left. reflexivity.
      + intros r R.
        assert (S2 : newest_first (t :: (T' ++ old :: O')))
          by (rewrite Split in Srt; exact Srt).
        apply (newest_first_head _ _ S2).
        assert (X : In r sorted) by (apply order_desc_In, R).
        rewrite Split in X. exact X.
      + rewrite (summary_reply_rows _ i g _ t (T' ++ [old]) G Q1 Q2).
        rewrite last_last. reflexivity. }
  destruct Reply as (newest & N1 & N2 & Rep).
  exists newest, old. split; [exact N1 |]. split; [apply Old |]. split; [exact N2 |].
  split; [apply Old |]. split.
  - intros r R D. apply (newest_first_head old O' SO). apply (InO r R D).
  - split; [exact Rep |]. intros L. rewrite Rep, (description_lost _ _ L). reflexivity.
Qed.

Lemma summary_compares_newest_with_last_before_today_witness :
  let i := mkInteraction true "summary" false (Some "g") Fulfilled Fulfilled Fulfilled in
  exists newest old : Row,
    In newest (of_guild "g" example_table) /\ In old (of_guild "g" example_table)
    /\ (forall r, In r (of_guild "g" example_table) -> date r <= date newest)
    /\ date old <= 250
    /\ (forall r, In r (of_guild "g" example_table) -> date r <= 250 -> date r <= date old)
    /\ summary_reply (table_store 250 example_table) i
       = Some (description (count newest) (count old))
    /\ (count old < count newest ->
        summary_reply (table_store 250 example_table) i
        = Some ("Today, the server has lost "
                ++ js_string_of_int (count newest - count old) ++ " members. ("
                ++ js_string_of_int (count newest) ++ " -> "
                ++ js_string_of_int (count old) ++ ")")).
Proof.
  intros i.
  apply (summary_compares_newest_with_last_before_today
           example_table 250 i "g" (mkRow "g" 100 100)).
  - reflexivity.
  - simpl. right. left. reflexivity.
  - simpl. lia.
Defined.

(** The guild of the example grew from 110 to 125 members today. *)
Example example_summary :
  summary_reply (table_store 250 example_table)
                (mkInteraction true "summary" false (Some "g") Fulfilled Fulfilled Fulfilled)
  = Some "Today, the server has lost 15 members. (125 -> 110)".
Proof. vm_compute. reflexivity. Qed.

(** X16. On a guild whose records are all from before today, the summary
    selects the newest record alone and says the server gained 0 members,
    from that count to that count. *)
Theorem summary_without_records_today :
  forall (table : list Row) (start : Z) (i : Interaction) (g : string) (r0 : Row),
    guild i = Some g -> In r0 (of_guild g table) ->
    (forall r, In r (of_guild g table) -> date r <= start) ->
    exists newest : Row,
      In newest (of_guild g table)
      /\ (forall r, In r (of_guild g table) -> date r <= date newest)
      /\ summary_reply (table_store start table) i
         = Some ("Today, the server has gained 0 members. ("
                 ++ js_string_of_int (count newest) ++ " -> "
                 ++ js_string_of_int (count newest) ++ ")").
Proof.
  intros table start i g r0 G R0 All.
  destruct (table_store_queries start table g) as [Q1 Q2].
  set (rs := of_guild g table) in *.
  set (sorted := order_desc rs) in *.
  pose proof (order_desc_newest_first rs) as Srt. fold sorted in Srt.
  assert (NoToday : List.filter (today start) sorted = []).
  { destruct (List.filter (today start) sorted) as [| t T'] eqn:ET; [reflexivity |].
    assert (X : In t (List.filter (today start) sorted)) by (rewrite ET; left; reflexivity).
    apply filter_In in X. destruct X as [X B].
    apply (proj1 (order_desc_In t rs)) in X.
    specialize (All t X). unfold today in B.
    destruct (Z.gtb_spec (date t) start); [lia | discriminate B]. }
  pose proof (newest_first_today_first start sorted Srt) as Split.
  rewrite NoToday in Q1, Q2, Split. cbn [app] in Q2, Split.
  destruct (List.filter (before_today start) sorted) as [| old O'] eqn:EO.
  - apply (proj2 (order_desc_In r0 rs)) in R0. fold sorted in R0.
    rewrite Split in R0. destruct R0.
  - cbn [firstn] in Q2. exists old. split; [| split].
    + apply order_desc_In. fold sorted. rewrite Split. left. reflexivity.
    + intros r R. rewrite Split in Srt. apply (newest_first_head old O' Srt).
      rewrite <- Split. apply order_desc_In, R.
    + rewrite (summary_reply_rows _ i g _ old [] G Q1 Q2). cbn [List.last].
      rewrite description_same. reflexivity.
Qed.

Lemma summary_without_records_today_witness :
  let i := mkInteraction true "summary" false (Some "g") Fulfilled Fulfilled Fulfilled in
  exists newest : Row,
    In newest (of_guild "g" example_table)
    /\ (forall r, In r (of_guild "g" example_table) -> date r <= date newest)
    /\ summary_reply (table_store 400 example_table) i
       = Some ("Today, the server has gained 0 members. ("
               ++ js_string_of_int (count newest) ++ " -> "
               ++ js_string_of_int (count newest) ++ ")").
Proof.
  intros i.
  apply (summary_without_records_today example_table 400 i "g" (mkRow "g" 100 100)).
  - reflexivity.
  - simpl. right. left. reflexivity.
  - simpl. intros r [<- | [<- | [<- | [<- | []]]]]; simpl; lia.
Defined.

Lemma last_In {A : Type} (x : A) (l : list A) : In (List.last l x) (x :: l).
Proof.
  revert x. induction l as [| y l IH]; intros x; [left; reflexivity |].
  right. destruct l as [| z l]; [left; reflexivity |].
  change (In (List.last (z :: l) x) (y :: z :: l)).
  rewrite (last_nonempty l z x y). apply (IH y).
Qed.

(** In a list ordered newest first no row is older than the last. *)
Lemma newest_first_last (x : Row) (l : list Row) :
  newest_first (x :: l) -> forall y, In y (x :: l) -> date (List.last l x) <= date y.
Proof.
  revert x. induction l as [| z l IH]; intros x S y Y.
  - destruct Y as [<- | []]. simpl. lia.
  - destruct S as [F S].
    assert (E : List.last (z :: l) x = List.last l z).
    { destruct l as [| w l]; [reflexivity |].
      change (List.last (w :: l) x = List.last (w :: l) z). apply last_nonempty. }
    rewrite E. destruct Y as [<- | Y]; [| apply (IH z S y Y)].
    rewrite Forall_forall in F. apply F, list_elem_of_In, last_In.
Qed.

(** X17. On a guild whose records are all of today, the summary takes as
    its start the count of the newest record and as its end the count of
    the oldest. *)
Theorem summary_on_the_first_day :
  forall (table : list Row) (start : Z) (i : Interaction) (g : string) (r0 : Row),
    guild i = Some g -> In r0 (of_guild g table) ->
    (forall r, In r (of_guild g table) -> start < date r) ->
    exists newest oldest : Row,
      In newest (of_guild g table) /\ In oldest (of_guild g table)
      /\ (forall r, In r (of_guild g table) -> date oldest <= date r <= date newest)
      /\ summary_reply (table_store start table) i
         = Some (description (count newest) (count oldest)).
Proof.
  intros table start i g r0 G R0 All.
  destruct (table_store_queries start table g) as [Q1 Q2].
  set (rs := of_guild g table) in *.
  set (sorted := order_desc rs) in *.
  pose proof (order_desc_newest_first rs) as Srt. fold sorted in Srt.
  assert (NoOld : List.filter (before_today start) sorted = []).
  { destruct (List.filter (before_today start) sorted) as [| t T'] eqn:ET; [reflexivity |].
    assert (X : In t (List.filter (before_today start) sorted))
      by (rewrite ET; left; reflexivity).
    apply filter_In in X. destruct X as [X B].
    apply (proj1 (order_desc_In t rs)) in X.
    specialize (All t X). unfold before_today, today in B.
    destruct (Z.gtb_spec (date t) start); [discriminate B | lia]. }
  pose proof (newest_first_today_first start sorted Srt) as Split.
  rewrite NoOld in Q2, Split. cbn [firstn] in Q2. rewrite app_nil_r in Q2, Split.
  rewrite <- Split in Q1, Q2.
  destruct sorted as [| first rest] eqn:ES.
  - apply (proj2 (order_desc_In r0 rs)) in R0. fold sorted in R0.
    rewrite ES in R0. destruct R0.
  - assert (Mem : forall r, In r rs <-> In r (first :: rest)).
    { intros r. rewrite <- (order_desc_In r rs). fold sorted. rewrite ES. reflexivity. }
    exists first, (List.last rest first). split; [| split; [| split]].
    + apply Mem. left. reflexivity.
    + apply Mem, last_In.
    + intros r R. apply Mem in R. split.
      * apply (newest_first_last first rest Srt r R).
      * apply (newest_first_head first rest Srt r R).
    + apply (summary_reply_rows _ i g _ first rest G Q1 Q2).
Qed.

Lemma summary_on_the_first_day_witness :
  let i := mkInteraction true "summary" false (Some "g") Fulfilled Fulfilled Fulfilled in
  exists newest oldest : Row,
    In newest (of_guild "g" example_table) /\ In oldest (of_guild "g" example_table)
    /\ (forall r, In r (of_guild "g" example_table) -> date oldest <= date r <= date newest)
    /\ summary_reply (table_store 50 example_table) i
       = Some (description (count newest) (count oldest)).
Proof.
  intros i.
  apply (summary_on_the_first_day example_table 50 i "g" (mkRow "g" 100 100)).
  - reflexivity.
  - simpl. right. left. reflexivity.
  - simpl. intros r [<- | [<- | [<- | [<- | []]]]]; simpl; lia.
Defined.

(** The callback gets to [interaction.reply] exactly when there is a reply
    to send, and its promise then settles as that of the reply; otherwise
    its promise is rejected. *)
Lemma summary_callback_reply (db : Database) (i : Interaction) :
  match summary_reply db i with
  | Some _ => summary_callback db i = ReturnsPromise (reply i)
  | None => exists e, summary_callback db i = ReturnsPromise (Rejected e)
  end.
Proof.
  unfold summary_reply, summary_callback.
  destruct (guild i) as [g |]; [| eexists; reflexivity].
  destruct (count_today db g) as [n | e]; [| eexists; reflexivity].
  destruct (select_recent db g (n + 1)) as [[| first rest] | e];
    try reflexivity; eexists; reflexivity.
Qed.

(** X18. Over a table, the summary sends no reply exactly when the
    interaction has no guild or the guild has no record; its promise is
    then rejected, and in every other case it settles as the promise of
    the reply does. *)
Theorem summary_fails_without_records :
  forall (table : list Row) (start : Z) (i : Interaction),
    (summary_reply (table_store start table) i = None
     <-> guild i = None \/ exists g, guild i = Some g /\ of_guild g table = [])
    /\ (summary_reply (table_store start table) i = None ->
        exists e, summary_callback (table_store start table) i
                  = ReturnsPromise (Rejected e))
    /\ (summary_reply (table_store start table) i <> None ->
        summary_callback (table_store start table) i = ReturnsPromise (reply i)).
Proof.
  intros table start i.
  pose proof (summary_callback_reply (table_store start table) i) as CR.
  split; [| split].
  - destruct (guild i) as [g |] eqn:G.
    + destruct (table_store_queries start table g) as [Q1 Q2].
      pose proof (newest_first_today_first start _
                    (order_desc_newest_first (of_guild g table))) as Split.
      destruct (of_guild g table) as [| r rs] eqn:E.
      * split; [intros _; right; exists g; split; [reflexivity | exact E] |].
        intros _. unfold summary_reply. rewrite G. simpl. rewrite E. reflexivity.
      * split; [| intros [X | (g' & X & Y)]; [discriminate X |];
                  injection X as <-; rewrite E in Y; discriminate Y].
        intros N. exfalso.
        destruct (List.filter (today start) (order_desc (r :: rs))) as [| t T'].
        -- destruct (List.filter (before_today start) (order_desc (r :: rs)))
             as [| old O'].
           ++ assert (X : In r (order_desc (r :: rs)))
                by (apply order_desc_In; left; reflexivity).
              rewrite Split in X. destruct X.
           ++ cbn [firstn app] in Q2.
              rewrite (summary_reply_rows _ i g _ old [] G Q1 Q2) in N. discriminate N.
        -- rewrite (summary_reply_rows _ i g _ t _ G Q1 Q2) in N. discriminate N.
    + split; [intros _; left; reflexivity |].
      intros _. unfold summary_reply. rewrite G. reflexivity.
  - intros N. rewrite N in CR. exact CR.
  - intros N. destruct (summary_reply (table_store start table) i);
      [exact CR | contradiction].
Qed.

End SummaryMore.
